(** * Polymarket copy-trading bot: position matching and reconciliation

    A shallow embedding of
    - [frontend/app.js], function [renderPairedPositions] (the position
      matcher and its slippage statistics), the other views and
      calculations of the dashboard, and its refresh cycle,
    - [src/scripts/reconcilePositions.ts], function [main] (the
      reconciliation driver), and
    - [src/dashboard/server.ts], the routes of the dashboard server,
    together with the slippage guard of [src/utils/postOrder.ts], which is
    described in [UPDATES] and the specification only.

    JavaScript numbers are IEEE 754 binary64 values; they are modelled by
    Rocq's primitive floats, whose operations are the same IEEE operations.
    A numeric field read from a position object is an [option float]:
    [None] is JavaScript's [undefined] (the field is absent). *)

From Stdlib Require Import Floats ZArith List Bool.
From stdpp Require Import base option list strings gmap pretty.
Import ListNotations.

(** A decimal literal denotes the nearest binary64 value, as it does in
    JavaScript. *)
Set Warnings "-inexact-float".

Local Open Scope string_scope.
Local Open Scope list_scope.

(** ** JavaScript numbers *)

Module JS.

(** A value read from a numeric field: a number or [undefined]. *)
Definition num := option float.

(** [ToBoolean] on a number: [+0], [-0] and [NaN] are falsy. *)
Definition truthy_float (x : float) : bool :=
  negb (PrimFloat.is_zero x || PrimFloat.is_nan x).

(** [ToBoolean] on a numeric field; [undefined] is falsy. *)
Definition truthy (v : num) : bool :=
  match v with
  | Some x => truthy_float x
  | None => false
  end.

(** [a || b] where both operands are numeric fields. *)
Definition or (a b : num) : num := if truthy a then a else b.

(** [a || d] where [d] is a number literal, so that the result is a
    number. *)
Definition or_lit (a : num) (d : float) : float :=
  match a with
  | Some x => if truthy_float x then x else d
  | None => d
  end.

(** [ToNumber]: [undefined] becomes [NaN]. *)
Definition to_number (v : num) : float :=
  match v with
  | Some x => x
  | None => PrimFloat.nan
  end.

(** [a > b] on numbers. *)
Definition gt (a b : float) : bool := PrimFloat.ltb b a.

(** [a > b] where [a] is a numeric field. *)
Definition gt_num (a : num) (b : float) : bool := gt (to_number a) b.

End JS.

(** ** Positions *)

(** The fields of [UserPositionInterface] that the two programs read. *)
Record Position := mkPosition {
  asset : string;
  conditionId : string;
  title : string;
  outcome : string;
  outcomeIndex : Z;
  slug : string;
  icon : string;
  eventSlug : string;
  size : JS.num;
  avgPrice : JS.num;
  curPrice : JS.num;
  currentValue : JS.num;
  cashPnl : JS.num
}.

(** [(p.currentValue || 0) > 0.01], the filter both programs use. *)
Definition isOpen (p : Position) : bool :=
  JS.gt (JS.or_lit (currentValue p) 0%float) 0.01%float.

(** ** The dashboard's position matcher ([frontend/app.js]) *)

Module Dashboard.

(** [getKey]: the template literal [`${p.title}|${p.outcome}`]. *)
Definition getKey (p : Position) : string :=
  (title p ++ "|" ++ outcome p)%string.

(** A JavaScript object used as a map from keys to positions.  Its own
    string keys are kept in insertion order, which is the order
    [Object.keys] lists them in; assigning to a key that is already
    there replaces the value and keeps the key's place.  Every key the
    matcher uses contains a vertical bar, so that no lookup reaches a
    property of [Object.prototype]. *)
Definition Obj := list (string * Position).

(** [o[k] = v] *)
Fixpoint obj_set (k : string) (v : Position) (o : Obj) : Obj :=
  match o with
  | [] => [(k, v)]
  | (k', v') :: o' =>
      if String.eqb k k' then (k, v) :: o' else (k', v') :: obj_set k v o'
  end.

(** [o[k]]; [None] is [undefined]. *)
Fixpoint obj_get (k : string) (o : Obj) : option Position :=
  match o with
  | [] => None
  | (k', v') :: o' => if String.eqb k k' then Some v' else obj_get k o'
  end.

(** [Object.keys(o)] *)
Definition obj_keys (o : Obj) : list string := map fst o.

(** [const byKey = {}; positions.forEach(p => { byKey[getKey(p)] = p; })] *)
Definition byKey (positions : list Position) : Obj :=
  fold_left (fun o p => obj_set (getKey p) p o) positions [].

Record MatchedPair := mkPair {
  key : string;
  trader : Position;
  bot : Position
}.

(** The body of [Object.keys(traderByKey).forEach]: one pair is pushed
    when [botByKey[key]] is truthy, that is, when it is an object. *)
Definition pairs_of_key (traderByKey botByKey : Obj) (k : string)
  : list MatchedPair :=
  match obj_get k botByKey, obj_get k traderByKey with
  | Some b, Some t => [mkPair k t b]
  | _, _ => []
  end.

Definition matchedPairs_of (traderByKey botByKey : Obj) : list MatchedPair :=
  flat_map (pairs_of_key traderByKey botByKey) (obj_keys traderByKey).

(** [!o[getKey(p)]] *)
Definition absent_from (o : Obj) (p : Position) : bool :=
  match obj_get (getKey p) o with
  | Some _ => false
  | None => true
  end.

(** [matchedPairs.length] as a number. *)
Definition length_number {A} (l : list A) : float :=
  PrimFloat.of_uint63 (Uint63.of_Z (Z.of_nat (length l))).

(** [(pair.bot.avgPrice - pair.trader.avgPrice) / pair.trader.avgPrice * 100] *)
Definition slippage_formula (pair : MatchedPair) : float :=
  ((JS.to_number (avgPrice (bot pair)) - JS.to_number (avgPrice (trader pair)))
     / JS.to_number (avgPrice (trader pair)) * 100)%float.

(** [totalSlippage], accumulated by the first [forEach]. *)
Definition totalSlippage (pairs : list MatchedPair) : float :=
  fold_left
    (fun total pair =>
       let priceDiff :=
         (JS.to_number (avgPrice (bot pair))
          - JS.to_number (avgPrice (trader pair)))%float in
       (total + priceDiff * JS.to_number (size (bot pair)))%float)
    pairs 0%float.

(** [avgSlippagePct]: the [reduce] over the matched pairs divided by
    their number, and [0] when there is no pair. *)
Definition avgSlippagePct (pairs : list MatchedPair) : float :=
  if (0 <? length pairs)%nat then
    (fold_left (fun sum pair => (sum + slippage_formula pair)%float)
               pairs 0%float
     / length_number pairs)%float
  else 0%float.

(** The per-row [slippagePct] of the table. *)
Definition slippagePct (pair : MatchedPair) : float :=
  if JS.gt_num (avgPrice (trader pair)) 0%float
  then slippage_formula pair
  else 0%float.

(** The per-row [sizeDiff]. *)
Definition sizeDiff (pair : MatchedPair) : float :=
  (JS.to_number (size (bot pair)) - JS.to_number (size (trader pair)))%float.

(** The per-row [pnlDiff]. *)
Definition pnlDiff (pair : MatchedPair) : float :=
  (JS.or_lit (cashPnl (bot pair)) 0 - JS.or_lit (cashPnl (trader pair)) 0)%float.

(** What [renderPairedPositions] computes before it writes the markup. *)
Record Paired := mkPaired {
  matchedPairs : list MatchedPair;
  traderOnly : list Position;
  botOnly : list Position;
  avgSlippage : float;
  rowSlippage : list float
}.

Definition renderPairedPositions (state_traderPositions state_botPositions
                                    : list Position) : Paired :=
  let traderPositions := List.filter isOpen state_traderPositions in
  let botPositions := List.filter isOpen state_botPositions in
  let traderByKey := byKey traderPositions in
  let botByKey := byKey botPositions in
  let matched := matchedPairs_of traderByKey botByKey in
  {| matchedPairs := matched;
     traderOnly := List.filter (absent_from botByKey) traderPositions;
     botOnly := List.filter (absent_from traderByKey) botPositions;
     avgSlippage := avgSlippagePct matched;
     rowSlippage := map slippagePct matched |}.

End Dashboard.

(** ** The reconciliation script ([src/scripts/reconcilePositions.ts]) *)

(** [UserActivityInterface], with the fields the synthetic trade sets. *)
Module Activity.
Record t := mk {
  _id : Z;
  proxyWallet : string;
  timestamp : Z;
  conditionId : string;
  type : string;
  size : JS.num;
  usdcSize : float;
  transactionHash : string;
  price : float;
  asset : string;
  side : string;
  outcomeIndex : Z;
  title : string;
  slug : string;
  icon : string;
  eventSlug : string;
  outcome : string;
  name : string;
  pseudonym : string;
  bio : string;
  profileImage : string;
  profileImageOptimized : string;
  bot : bool;
  botExcutedTime : Z;
  myBoughtSize : JS.num
}.
End Activity.

Module Reconcile.

(** The outcome of a call: it returns a value or it throws (an awaited
    promise resolves or rejects). *)
Inductive Result (A : Type) : Type :=
| Ok (a : A)
| Throw (err : string).
Arguments Ok {A} a.
Arguments Throw {A} err.

(** What the script writes through [Logger]; the message texts are kept
    as their parts. *)
Inductive LogMsg : Type :=
| NoStalePositions
| ReconcileHeader
| FoundStale (n : nat)
| ClosingStale (label : string) (condition : string) (sz : JS.num)
| FailedToClose (label : string) (err : string).

Inductive LogLevel : Type := LSuccess | LHeader | LInfo | LError.

(** The calls the script makes to its collaborators, in the order it
    makes them. *)
Inductive Event : Type :=
| EConnectDB
| ECreateClobClient
| EFetchData (url : string)
| ELogger (level : LogLevel) (msg : LogMsg)
| EGetMyBalance (address : string)
| EPostOrder (condition : string) (my_position : Position)
             (user_position : option Position) (trade : Activity.t)
             (my_balance : float) (user_balance : float)
             (userAddress : string)
| ESleep (ms : Z)
| ECloseConnection.

Definition History := list Event.

(** The environment of one run: the configuration and, for every
    collaborator, what a call answers after a given history of calls.
    [settled_at h i] is the time at which the [i]-th request of the
    [Promise.all] settles, when its requests are those sent in [h]. *)
Record World := mkWorld {
  USER_ADDRESSES : list string;
  PROXY_WALLET : string;
  connectDB : History -> Result unit;
  createClobClient : History -> Result unit;
  fetchData : History -> string -> Result (list Position);
  getMyBalance : History -> string -> Result float;
  postOrder : History -> string -> Position -> option Position ->
              Activity.t -> float -> float -> string -> Result unit;
  connection_close : History -> Result unit;
  Date_now : History -> Z;
  new_ObjectId : History -> Z;
  settled_at : History -> nat -> Z
}.

(** Computations: the history of calls is threaded through, and a
    computation returns or throws. *)
Definition M (A : Type) : Type := History -> History * Result A.

Definition ret {A} (a : A) : M A := fun h => (h, Ok a).

Definition bind {A B} (m : M A) (k : A -> M B) : M B :=
  fun h =>
    match m h with
    | (h', Ok a) => k a h'
    | (h', Throw e) => (h', Throw e)
    end.

(** [try { body } catch (error) { handler }] *)
Definition try_catch {A} (body : M A) (handler : string -> M A) : M A :=
  fun h =>
    match body h with
    | (h', Ok a) => (h', Ok a)
    | (h', Throw e) => handler e h'
    end.

(** A call to a collaborator: it is recorded, and answers what the world
    answers after the history before it. *)
Definition call {A} (e : Event) (answer : History -> Result A) : M A :=
  fun h => (h ++ [e], answer h).

(** A call that cannot fail ([Logger], [sleep]). *)
Definition emit (e : Event) : M unit := call e (fun _ => Ok tt).

(** A read of the environment that is not recorded ([Date.now()]). *)
Definition ask {A} (f : History -> A) : M A := fun h => (h, Ok (f h)).

Declare Scope js_scope.
Delimit Scope js_scope with js.
Notation "x <- m ;; k" := (bind m (fun x => k))
  (at level 100, m at next level, right associativity) : js_scope.
Notation "m ;; k" := (bind m (fun _ => k))
  (at level 100, right associativity) : js_scope.
Local Open Scope js_scope.

(** [for (const x of xs) { body }] *)
Fixpoint for_of {A} (xs : list A) (body : A -> M unit) : M unit :=
  match xs with
  | [] => ret tt
  | x :: xs' => body x ;; for_of xs' body
  end.

(** [xs.map(f)] for an asynchronous [f]: every call is started, in
    order, and each has its answer. *)
Fixpoint start_all {A B} (f : A -> M B) (xs : list A) (h : History)
  : History * list (Result B) :=
  match xs with
  | [] => (h, [])
  | x :: xs' =>
      let '(h1, r) := f x h in
      let '(h2, rs) := start_all f xs' h1 in
      (h2, r :: rs)
  end.

(** The rejection that settles first among the answers [rs] of the
    calls numbered from [i] on, the [k]-th call settling at the time
    [time k]; [best] is the first of those before.  Of two rejections
    that settle at the same time, it is the one of the call started
    first. *)
Fixpoint first_rejection {B} (time : nat -> Z) (i : nat)
         (rs : list (Result B)) (best : option (nat * string))
  : option (nat * string) :=
  match rs with
  | [] => best
  | Ok _ :: rs' => first_rejection time (S i) rs' best
  | Throw e :: rs' =>
      first_rejection time (S i) rs'
        (match best with
         | Some (j, _) => if (time i <? time j)%Z then Some (i, e) else best
         | None => Some (i, e)
         end)
  end.

(** The values of the answers that resolved. *)
Fixpoint resolved {B} (rs : list (Result B)) : list B :=
  match rs with
  | [] => []
  | Ok b :: rs' => b :: resolved rs'
  | Throw _ :: rs' => resolved rs'
  end.

(** [Promise.all(xs.map(f))]: every call is started, in order; the
    result is the list of the answers when all resolve, and else the
    rejection that settles first, while the other calls stay started. *)
Definition promise_all {A B} (time : History -> nat -> Z)
           (f : A -> M B) (xs : list A) : M (list B) :=
  fun h =>
    let '(h', rs) := start_all f xs h in
    match first_rejection (time h') 0 rs None with
    | Some (_, e) => (h', Throw e)
    | None => (h', Ok (resolved rs))
    end.

Definition DATA_API_BASE : string := "https://data-api.polymarket.com".

(** [pos.title || pos.asset]: the empty string is falsy. *)
Definition label (pos : Position) : string :=
  if String.eqb (title pos) "" then asset pos else title pos.

(** The conditions of the open positions of the fetched responses:
    [traderOpenConditions] after the two nested [forEach]. *)
Definition openConditions (responses : list (list Position)) : gset string :=
  fold_left
    (fun acc positions =>
       fold_left (fun acc' p => acc' ∪ {[ conditionId p ]})
                 (List.filter isOpen positions) acc)
    responses ∅.

(** [traderOpenConditions.has(c)] *)
Definition has (s : gset string) (c : string) : bool := bool_decide (c ∈ s).

Definition botOnly_of (responses : list (list Position))
                      (botPositions : list Position) : list Position :=
  let traderOpenConditions := openConditions responses in
  let botOpen := List.filter isOpen botPositions in
  List.filter (fun p => negb (has traderOpenConditions (conditionId p))) botOpen.

Section Script.

Variable W : World.

Definition fetchPositions (address : string) : M (list Position) :=
  let url := (DATA_API_BASE ++ "/positions?user=" ++ address)%string in
  call (EFetchData url) (fun h => fetchData W h url).

(** The object literal bound to [syntheticTrade]. *)
Definition syntheticTrade (oid : Z) (now : Z) (pos : Position) : Activity.t :=
  {| Activity._id := oid;
     Activity.proxyWallet := PROXY_WALLET W;
     Activity.timestamp := (now / 1000)%Z;
     Activity.conditionId := conditionId pos;
     Activity.type := "TRADE";
     Activity.size := size pos;
     Activity.usdcSize :=
       (JS.or_lit (size pos) 0
        * JS.or_lit (JS.or (curPrice pos) (avgPrice pos)) 0)%float;
     Activity.transactionHash := "";
     Activity.price := JS.or_lit (JS.or (curPrice pos) (avgPrice pos)) 0.5;
     Activity.asset := asset pos;
     Activity.side := "SELL";
     Activity.outcomeIndex := outcomeIndex pos;
     Activity.title := title pos;
     Activity.slug := slug pos;
     Activity.icon := icon pos;
     Activity.eventSlug := eventSlug pos;
     Activity.outcome := outcome pos;
     Activity.name := "reconcile";
     Activity.pseudonym := "reconcile";
     Activity.bio := "";
     Activity.profileImage := "";
     Activity.profileImageOptimized := "";
     Activity.bot := false;
     Activity.botExcutedTime := 0;
     Activity.myBoughtSize := size pos |}.

(** The [try] block of the loop body. *)
Definition close_position (my_balance : float) (pos : Position) : M unit :=
  emit (ELogger LInfo (ClosingStale (label pos) (conditionId pos) (size pos))) ;;
  oid <- ask (new_ObjectId W) ;;
  now <- ask (Date_now W) ;;
  let trade := syntheticTrade oid now pos in
  call (EPostOrder "sell" pos None trade my_balance 0 "reconcile")
       (fun h => postOrder W h "sell" pos None trade my_balance 0 "reconcile") ;;
  emit (ESleep 250).

(** The loop body: the [try] block and its [catch]. *)
Definition loop_body (my_balance : float) (pos : Position) : M unit :=
  try_catch (close_position my_balance pos)
            (fun err => emit (ELogger LError (FailedToClose (label pos) err))).

(** What [main] does once the positions are fetched: from the
    computation of [traderOpenConditions] to the end. *)
Definition reconcile (traderPositionsResponses : list (list Position))
                     (botPositions : list Position) : M unit :=
  let botOnly := botOnly_of traderPositionsResponses botPositions in
  if (length botOnly =? 0)%nat then
    emit (ELogger LSuccess NoStalePositions) ;;
    call ECloseConnection (connection_close W)
  else
    emit (ELogger LHeader ReconcileHeader) ;;
    emit (ELogger LInfo (FoundStale (length botOnly))) ;;
    my_balance <- call (EGetMyBalance (PROXY_WALLET W))
                       (fun h => getMyBalance W h (PROXY_WALLET W)) ;;
    for_of botOnly (loop_body my_balance) ;;
    call ECloseConnection (connection_close W).

Definition main : M unit :=
  call EConnectDB (connectDB W) ;;
  call ECreateClobClient (createClobClient W) ;;
  traderPositionsResponses <-
    promise_all (settled_at W) fetchPositions (USER_ADDRESSES W) ;;
  botPositions <- fetchPositions (PROXY_WALLET W) ;;
  reconcile traderPositionsResponses botPositions.

(** The last line of the script,
    [main().catch((err) => { console.error(err); process.exit(1); })]:
    the exit status of the process started with an empty history. *)
Definition exit_status : Z :=
  match snd (main []) with
  | Ok _ => 0
  | Throw _ => 1
  end.

End Script.

(** The events a computation adds to a history. *)
Definition added {A} (m : M A) (h : History) : list Event :=
  drop (length h) (fst (m h)).

Definition is_order (e : Event) : bool :=
  match e with EPostOrder _ _ _ _ _ _ _ => true | _ => false end.
Definition is_balance_lookup (e : Event) : bool :=
  match e with EGetMyBalance _ => true | _ => false end.
Definition is_pause (e : Event) : bool :=
  match e with ESleep _ => true | _ => false end.

(** The positions handed to [postOrder], in order. *)
Definition attempted (evs : list Event) : list Position :=
  flat_map (fun e => match e with
                     | EPostOrder _ pos _ _ _ _ _ => [pos]
                     | _ => []
                     end) evs.

End Reconcile.

(** ** The slippage guard and the retry loop ([src/utils/postOrder.ts]) *)

Module Guard.

(** Modelled from the spec: the two values of [SLIPPAGE_ACTION], which
    [src/config/env.ts] (not among the sources) reads. *)
Inductive Action : Type := wait | skip.

(** Modelled from the spec: the side of an order, as
    [src/utils/postOrder.ts] (not among the sources) takes it. *)
Inductive Side : Type := BUY | SELL.

(** Modelled from the spec: [SlippageConfig] of [src/config/env.ts],
    which is not among the sources. *)
Record SlippageConfig := mkConfig {
  maxSlippagePct : float;
  waitMs : Z;
  maxRetries : nat;
  minBookSizeUsd : float;
  action : Action
}.

(** Modelled from the spec: the quote the guard consumes, the best bid
    and ask and the size available at each. *)
Record Quote := mkQuote {
  bestBid : float;
  bestAsk : float;
  bidSize : float;
  askSize : float
}.

(** Modelled from the spec: why the guard of [src/utils/postOrder.ts]
    gives an order up. *)
Inductive Reason : Type :=
| ToleranceViolated
| DepthViolated
| MaxRetriesExhausted.

(** Modelled from the spec: the decisions of the guard of
    [src/utils/postOrder.ts]. *)
Inductive GuardDecision : Type :=
| Proceed
| RetryAfterWait
| Abort (reason : Reason).

(** Modelled from the spec: step 1 of the guard of
    [src/utils/postOrder.ts], the best ask for a buy and the best bid for
    a sell. *)
Definition livePrice (side : Side) (q : Quote) : float :=
  match side with
  | BUY => bestAsk q
  | SELL => bestBid q
  end.

(** Modelled from the spec: step 2 of the guard of
    [src/utils/postOrder.ts], the drift in percent, signed so that the
    adverse direction is the positive one. *)
Definition adverseDrift (referencePrice : float) (side : Side) (q : Quote) : float :=
  let drift := ((livePrice side q - referencePrice) / referencePrice * 100)%float in
  match side with
  | BUY => drift
  | SELL => (- drift)%float
  end.

(** Modelled from the spec: step 3 of the guard of
    [src/utils/postOrder.ts]. *)
Definition toleranceViolated (cfg : SlippageConfig) (referencePrice : float)
                             (side : Side) (q : Quote) : bool :=
  JS.gt (PrimFloat.abs (adverseDrift referencePrice side q)) (maxSlippagePct cfg).

(** Modelled from the spec: step 4 of the guard of
    [src/utils/postOrder.ts], the notional in USD at the best price of
    the side the order takes. *)
Definition bookSizeUsd (side : Side) (q : Quote) : float :=
  match side with
  | BUY => (askSize q * bestAsk q)%float
  | SELL => (bidSize q * bestBid q)%float
  end.

(** Modelled from the spec: step 4 of the guard of
    [src/utils/postOrder.ts], the comparison with the required depth. *)
Definition depthViolated (cfg : SlippageConfig) (side : Side) (q : Quote) : bool :=
  PrimFloat.ltb (bookSizeUsd side q) (minBookSizeUsd cfg).

(** Modelled from the spec: the guard of [src/utils/postOrder.ts],
    steps 5 and 6 of its algorithm. *)
Definition SlippageGuard (cfg : SlippageConfig) (referencePrice : float)
                         (side : Side) (q : Quote) (attempt : nat)
  : GuardDecision :=
  let tolerance := toleranceViolated cfg referencePrice side q in
  let depth := depthViolated cfg side q in
  if negb (tolerance || depth) then Proceed
  else
    let reason := if tolerance then ToleranceViolated else DepthViolated in
    match action cfg with
    | skip => Abort reason
    | wait =>
        if (maxRetries cfg <=? attempt)%nat
        then Abort MaxRetriesExhausted
        else RetryAfterWait
    end.

(** Modelled from the spec: the states of the retry loop of
    [src/utils/postOrder.ts]. *)
Inductive State : Type :=
| Checking (attempt : nat)
| Waiting (attempt : nat)
| Executing
| Aborted (reason : Reason)
| Succeeded
| Failed (err : string).

(** Modelled from the spec: what the retry loop of
    [src/utils/postOrder.ts] does, in order. *)
Inductive LoopEvent : Type :=
| FetchQuote
| Decide (d : GuardDecision)
| Pause (ms : Z)
| Submit.

Section Loop.

Variable cfg : SlippageConfig.
Variable referencePrice : float.
Variable side : Side.
(** The quote source: the book at the [n]-th fetch. *)
Variable quote : nat -> Quote.
(** The order-submission collaborator: [None] is success. *)
Variable submit : option string.

(** Modelled from the spec: one transition of the retry loop of
    [src/utils/postOrder.ts], with what it does. *)
Definition step (s : State) : State * list LoopEvent :=
  match s with
  | Checking attempt =>
      let d := SlippageGuard cfg referencePrice side (quote attempt) attempt in
      match d with
      | Proceed => (Executing, [FetchQuote; Decide d])
      | RetryAfterWait => (Waiting (S attempt), [FetchQuote; Decide d])
      | Abort reason => (Aborted reason, [FetchQuote; Decide d])
      end
  | Waiting attempt => (Checking attempt, [Pause (waitMs cfg)])
  | Executing =>
      match submit with
      | None => (Succeeded, [Submit])
      | Some err => (Failed err, [Submit])
      end
  | Aborted reason => (Aborted reason, [])
  | Succeeded => (Succeeded, [])
  | Failed err => (Failed err, [])
  end.

(** Modelled from the spec: [n] transitions of the retry loop of
    [src/utils/postOrder.ts] from a state. *)
Fixpoint run (n : nat) (s : State) : State * list LoopEvent :=
  match n with
  | O => (s, [])
  | S n' =>
      let '(s1, evs1) := step s in
      let '(s2, evs2) := run n' s1 in
      (s2, evs1 ++ evs2)
  end.

(** Modelled from the spec: the retry loop of [src/utils/postOrder.ts]
    from its initial state; two transitions for each attempt and each
    retry, and one to submit, are enough to reach a terminal state. *)
Definition ExecutionRetryLoop : State * list LoopEvent :=
  run (2 * maxRetries cfg + 3) (Checking 0).

End Loop.

(** Modelled from the spec: the terminal states of the retry loop of
    [src/utils/postOrder.ts]. *)
Definition terminal (s : State) : bool :=
  match s with
  | Aborted _ | Succeeded | Failed _ => true
  | _ => false
  end.

Definition is_retry (e : LoopEvent) : bool :=
  match e with Decide RetryAfterWait => true | _ => false end.
Definition is_abort (e : LoopEvent) : bool :=
  match e with Decide (Abort _) => true | _ => false end.
Definition is_wait (e : LoopEvent) : bool :=
  match e with Pause _ => true | _ => false end.
Definition is_submit (e : LoopEvent) : bool :=
  match e with Submit => true | _ => false end.

End Guard.

(** ** Built-in functions of JavaScript the dashboard calls *)

Module Builtins.

(** The number with an integer value: exact below [2^53]. *)
Definition number_of_Z (n : Z) : float :=
  match n with
  | Z0 => 0%float
  | Zpos _ => PrimFloat.of_uint63 (Uint63.of_Z n)
  | Zneg _ => (- PrimFloat.of_uint63 (Uint63.of_Z (- n)))%float
  end.

(** A counter or an array length as a number. *)
Definition number_of_nat (n : nat) : float := number_of_Z (Z.of_nat n).

(** [Math.round]: the nearest integer, a tie going up; an integer, an
    infinity and [NaN] are returned as they are, and a number from [-0.5]
    up to [-0] gives [-0].  A finite number is [m * 2^e] with the sign
    [s]; when [e] is negative the integer is
    [floor (m * 2^e + 1/2)], computed on integers. *)
Definition Math_round (x : float) : float :=
  match Prim2SF x with
  | S754_finite s m e =>
      if (0 <=? e)%Z then x
      else
        let k := (- e)%Z in
        let twice := if s then (2 ^ k - 2 * Z.pos m)%Z
                     else (2 ^ k + 2 * Z.pos m)%Z in
        let n := Z.shiftr twice (k + 1) in
        if (n =? 0)%Z then (if s then (-0)%float else 0%float)
        else number_of_Z n
  | _ => x
  end.

(** [Array.from(new Set(arr))] on strings: the first occurrence of every
    element, in order. *)
Definition unique (arr : list string) : list string :=
  fold_left (fun seen a => if existsb (String.eqb a) seen then seen
                           else seen ++ [a])
            arr [].

End Builtins.

(** ** The dashboard's other views ([frontend/app.js]) *)

Module Panels.

Import Builtins.

(** [CONFIG.POSITIONS_LIMIT], the number of positions the dashboard asks
    for. *)
Definition POSITIONS_LIMIT : nat := 50.

(** [(p.currentValue || 0) <= 0.01], the filter of the closed tab. *)
Definition isClosed (p : Position) : bool :=
  PrimFloat.leb (JS.or_lit (currentValue p) 0%float) 0.01%float.

(** What [renderPositions] computes before it writes the markup: the two
    lists, the one the active tab shows, and the message of the empty
    state when that one is empty. *)
Record PositionsPanel := mkPositionsPanel {
  openPositions : list Position;
  closedPositions : list Position;
  displayPositions : list Position;
  emptyMessage : option string
}.

Definition renderPositions (activeTab : string) (positions : list Position)
  : PositionsPanel :=
  let openPositions := List.filter isOpen positions in
  let closedPositions := List.filter isClosed positions in
  let displayPositions :=
    if String.eqb activeTab "open" then openPositions else closedPositions in
  {| openPositions := openPositions;
     closedPositions := closedPositions;
     displayPositions := displayPositions;
     emptyMessage :=
       if (length displayPositions =? 0)%nat then
         Some (if String.eqb activeTab "closed" then "No closed positions"
               else "No positions found")
       else None |}.

(** [new Set(positions.filter(open).map(p => p.conditionId))] *)
Definition openConditionSet (positions : list Position) : gset string :=
  list_to_set (map conditionId (List.filter isOpen positions)).

(** What [renderMismatches] computes before it writes the markup. *)
Record Mismatches := mkMismatches {
  botMissing : list Position;
  botExtra : list Position
}.

Definition renderMismatches (state_traderPositions state_botPositions
                               : list Position) : Mismatches :=
  let botConditions := openConditionSet state_botPositions in
  let traderOpenPositions := List.filter isOpen state_traderPositions in
  let botMissing :=
    List.filter (fun p => negb (Reconcile.has botConditions (conditionId p)))
                traderOpenPositions in
  let traderConditions := openConditionSet state_traderPositions in
  let botOpenPositions := List.filter isOpen state_botPositions in
  let botExtra :=
    List.filter (fun p => negb (Reconcile.has traderConditions (conditionId p)))
                botOpenPositions in
  {| botMissing := botMissing; botExtra := botExtra |}.

(** The counter [matches] of [calculateMatchRate] after its [forEach]. *)
Definition matches_of (traderOpen botOpen : list Position) : nat :=
  let botKeys : gset string := list_to_set (map Dashboard.getKey botOpen) in
  fold_left (fun matches p =>
               if Reconcile.has botKeys (Dashboard.getKey p)
               then S matches else matches)
            traderOpen 0%nat.

Definition calculateMatchRate (state_traderPositions state_botPositions
                                 : list Position) : float :=
  let traderOpen := List.filter isOpen state_traderPositions in
  let botOpen := List.filter isOpen state_botPositions in
  if (length traderOpen =? 0)%nat then 0%float
  else
    Math_round (number_of_nat (matches_of traderOpen botOpen)
                / number_of_nat (length traderOpen) * 100)%float.

(** [formatPriceCents]: the text ['0'] for what is not a number, else the
    price in cents, rounded. *)
Definition formatPriceCents (value : JS.num) : string + float :=
  match value with
  | None => inl "0"
  | Some v => inr (Math_round (v * 100)%float)
  end.

(** [shortAddress]; the empty text is falsy. *)
Definition shortAddress (addr : string) : string :=
  if String.eqb addr "" || (String.length addr <? 10)%nat then
    (if String.eqb addr "" then "--" else addr)
  else
    (String.substring 0 6 addr ++ "..."
     ++ String.substring (String.length addr - 4) 4 addr)%string.

(** [formatRelativeTime], for a timestamp in whole seconds; [Date_now] is
    what [Date.now()] answers, in milliseconds. *)
Definition formatRelativeTime (Date_now : Z) (timestamp : Z) : string :=
  let now := (Date_now / 1000)%Z in
  let diff := (now - timestamp)%Z in
  if (diff <? 60)%Z then (pretty diff ++ "s ago")%string
  else if (diff <? 3600)%Z then (pretty (diff / 60)%Z ++ "m ago")%string
  else if (diff <? 86400)%Z then (pretty (diff / 3600)%Z ++ "h ago")%string
  else (pretty (diff / 86400)%Z ++ "d ago")%string.

End Panels.

(** ** The dashboard's trade comparison ([frontend/app.js]) *)

Module Trades.

(** [a.type === 'TRADE'] *)
Definition is_trade (a : Activity.t) : bool :=
  String.eqb (Activity.type a) "TRADE".

(** The predicate of the [find] calls: a bot trade on the same condition
    and side, later than the trader's trade by less than [window]
    seconds.  Timestamps are whole seconds. *)
Definition copies_within (window : Z) (traderTrade b : Activity.t) : bool :=
  String.eqb (Activity.conditionId b) (Activity.conditionId traderTrade)
  && String.eqb (Activity.side b) (Activity.side traderTrade)
  && (Activity.timestamp traderTrade <? Activity.timestamp b)%Z
  && (Activity.timestamp b - Activity.timestamp traderTrade <? window)%Z.

(** [(botTrade.price - traderTrade.price) / traderTrade.price * 100] *)
Definition slippagePercent (traderTrade botTrade : Activity.t) : float :=
  ((Activity.price botTrade - Activity.price traderTrade)
   / Activity.price traderTrade * 100)%float.

(** A row of [matchedTrades]. *)
Record MatchedTrade := mkMatchedTrade {
  title : string;
  outcome : string;
  side : string;
  traderPrice : float;
  traderSize : JS.num;
  botPrice : float;
  botSize : JS.num;
  slippage : float;
  traderTime : Z;
  botTime : Z;
  delay : Z
}.

(** The body of [traderTrades.forEach] in [renderTradeComparison]. *)
Definition rows_of_trade (botTrades : list Activity.t)
                         (traderTrade : Activity.t) : list MatchedTrade :=
  match find (copies_within 600 traderTrade) botTrades with
  | Some botTrade =>
      if JS.gt (Activity.price traderTrade) 0 then
        [{| title := Activity.title traderTrade;
            outcome := Activity.outcome traderTrade;
            side := Activity.side traderTrade;
            traderPrice := Activity.price traderTrade;
            traderSize := Activity.size traderTrade;
            botPrice := Activity.price botTrade;
            botSize := Activity.size botTrade;
            slippage := slippagePercent traderTrade botTrade;
            traderTime := Activity.timestamp traderTrade;
            botTime := Activity.timestamp botTrade;
            delay := (Activity.timestamp botTrade
                      - Activity.timestamp traderTrade)%Z |}]
      else []
  | None => []
  end.

(** [matchedTrades] of [renderTradeComparison], before the markup. *)
Definition renderTradeComparison (state_traderActivity state_botActivity
                                    : list Activity.t) : list MatchedTrade :=
  let traderTrades := List.filter is_trade state_traderActivity in
  let botTrades := List.filter is_trade state_botActivity in
  flat_map (rows_of_trade botTrades) traderTrades.

(** An element of [slippages] in [calculateSlippage]. *)
Record Slip := mkSlip {
  slip_slippage : float;
  slip_traderPrice : float;
  slip_botPrice : float;
  slip_side : string;
  slip_title : string
}.

(** The body of [state.traderActivity.forEach] in [calculateSlippage]. *)
Definition slips_of_trade (botActivity : list Activity.t)
                          (traderTrade : Activity.t) : list Slip :=
  if negb (is_trade traderTrade) then []
  else
    match find (fun b => is_trade b && copies_within 300 traderTrade b)
               botActivity with
    | Some botTrade =>
        if JS.gt (Activity.price traderTrade) 0 then
          [{| slip_slippage := slippagePercent traderTrade botTrade;
              slip_traderPrice := Activity.price traderTrade;
              slip_botPrice := Activity.price botTrade;
              slip_side := Activity.side traderTrade;
              slip_title := Activity.title traderTrade |}]
        else []
    | None => []
    end.

(** What [calculateSlippage] returns; [avg] holds the number that the
    code then writes with two decimals, and [details] is absent from the
    object returned when nothing is matched. *)
Record SlippageSummary := mkSummary {
  avg : float;
  count : nat;
  details : option (list Slip)
}.

Definition calculateSlippage (state_traderActivity state_botActivity
                                : list Activity.t) : SlippageSummary :=
  if (length state_traderActivity =? 0)%nat
     || (length state_botActivity =? 0)%nat
  then {| avg := 0; count := 0; details := None |}
  else
    let slippages := flat_map (slips_of_trade state_botActivity)
                              state_traderActivity in
    if (length slippages =? 0)%nat
    then {| avg := 0; count := 0; details := None |}
    else
      let avgSlippage :=
        (fold_left (fun sum s => (sum + PrimFloat.abs (slip_slippage s))%float)
                   slippages 0%float
         / Builtins.number_of_nat (length slippages))%float in
      {| avg := avgSlippage; count := length slippages;
         details := Some slippages |}.

End Trades.

(** ** The dashboard's API server ([src/dashboard/server.ts]) *)

Module Server.

Import Builtins.

(** What a request can throw. *)
Inductive Failure : Type :=
| ResponseError (status : Z) (statusText : string)
| ErrorObject (message : string)
| OtherValue.

(** An awaited request: it resolves with the data or rejects. *)
Inductive Answer (A : Type) : Type :=
| Resolved (data : A)
| Rejected (failure : Failure).
Arguments Resolved {A} data.
Arguments Rejected {A} failure.

(** The requests sent to the data API so far, by URL. *)
Definition Requests := list string.

Section Routes.

(** The data a route forwards: the server does not look into it. *)
Variable Data : Type.

(** The environment of a request: the configuration, what the data API
    answers to a URL after the requests before it, the clock, the text
    of [parseInt(s, 10)] in a template literal, and the time at which the
    [i]-th request of a [Promise.all] settles, when its requests are
    those sent so far. *)
Record World := mkWorld {
  USER_ADDRESSES : list string;
  PROXY_WALLET : string;
  axios_get : Requests -> string -> Answer Data;
  Date_now : Requests -> Z;
  parseInt_text : string -> string;
  settled_at : Requests -> nat -> Z
}.

(** What the route sends back: the JSON of a success, or status 500. *)
Inductive Response : Type :=
| Json (traders : list (string * Data)) (bot : string * Data) (timestamp : Z)
| Status500 (error : string) (message : string).

Variable W : World.

Definition DATA_API_BASE : string := "https://data-api.polymarket.com".

(** [fetchJson] *)
Definition fetchJson (url : string) (sent : Requests) : Requests * Answer Data :=
  (sent ++ [url], axios_get W sent url).

(** [traderPromises], the array
    [addresses.map(async (address) => ({ address, ...: await fetchJson(url) }))]:
    every request is sent, in order, and each address has its answer. *)
Fixpoint traderPromises (url_of : string -> string) (addresses : list string)
                        (sent : Requests)
  : Requests * list (string * Answer Data) :=
  match addresses with
  | [] => (sent, [])
  | address :: rest =>
      let '(sent1, r) := fetchJson (url_of address) sent in
      let '(sent2, rs) := traderPromises url_of rest sent1 in
      (sent2, (address, r) :: rs)
  end.

(** The rejection that settles first among the promises [rs], numbered
    from [i] on, the [k]-th settling at the time [time k]; [best] is the
    first of those before.  Of two rejections that settle at the same
    time, it is the one of the request sent first. *)
Fixpoint first_rejection (time : nat -> Z) (i : nat)
         (rs : list (string * Answer Data)) (best : option (nat * Failure))
  : option (nat * Failure) :=
  match rs with
  | [] => best
  | (_, Resolved _) :: rs' => first_rejection time (S i) rs' best
  | (_, Rejected failure) :: rs' =>
      first_rejection time (S i) rs'
        (match best with
         | Some (j, _) =>
             if (time i <? time j)%Z then Some (i, failure) else best
         | None => Some (i, failure)
         end)
  end.

(** The entries of the promises that resolved. *)
Fixpoint entries_of (rs : list (string * Answer Data)) : list (string * Data) :=
  match rs with
  | [] => []
  | (address, Resolved data) :: rs' => (address, data) :: entries_of rs'
  | (_, Rejected _) :: rs' => entries_of rs'
  end.

(** [await Promise.all(traderPromises)]: the entries when every promise
    resolves, and else the rejection that settles first. *)
Definition fetch_all (url_of : string -> string) (addresses : list string)
                     (sent : Requests)
  : Requests * Answer (list (string * Data)) :=
  let '(sent', rs) := traderPromises url_of addresses sent in
  match first_rejection (settled_at W sent') 0 rs None with
  | Some (_, failure) => (sent', Rejected failure)
  | None => (sent', Resolved (entries_of rs))
  end.

(** The [message] of the [catch] block. *)
Definition message_of (failure : Failure) : string :=
  match failure with
  | ResponseError status statusText =>
      (pretty status ++ " " ++ statusText)%string
  | ErrorObject message => message
  | OtherValue => "Unknown error"
  end.

(** The handler of [/api/positions] and of [/api/activity], which differ
    in the [resource] of the URL, in the default of [limit] and in the
    text of the failure. *)
Definition route (resource default_limit failure_text : string)
                 (query_limit : option string) (sent : Requests)
  : Requests * Response :=
  let limit :=
    parseInt_text W
      (match query_limit with
       | Some text => if String.eqb text "" then default_limit else text
       | None => default_limit
       end) in
  let url_of address :=
    (DATA_API_BASE ++ "/" ++ resource ++ "?user=" ++ address
     ++ "&limit=" ++ limit)%string in
  match fetch_all url_of (unique (USER_ADDRESSES W)) sent with
  | (sent1, Resolved traders) =>
      match fetchJson (url_of (PROXY_WALLET W)) sent1 with
      | (sent2, Resolved botData) =>
          (sent2, Json traders (PROXY_WALLET W, botData) (Date_now W sent2))
      | (sent2, Rejected failure) =>
          (sent2, Status500 failure_text (message_of failure))
      end
  | (sent1, Rejected failure) =>
      (sent1, Status500 failure_text (message_of failure))
  end.

Definition api_positions : option string -> Requests -> Requests * Response :=
  route "positions" "100" "Failed to fetch positions".

Definition api_activity : option string -> Requests -> Requests * Response :=
  route "activity" "50" "Failed to fetch activity".

End Routes.

Arguments Json {Data} traders bot timestamp.
Arguments Status500 {Data} error message.

End Server.

(** ** The dashboard's refresh cycle ([frontend/app.js]) *)

Module Refresh.

(** [CONFIG.REFRESH_INTERVAL], in seconds. *)
Definition REFRESH_INTERVAL : Z := 30.

(** [CONFIG.TRADER_ADDRESS] and [CONFIG.BOT_ADDRESS]. *)
Definition TRADER_ADDRESS : string := "".
Definition BOT_ADDRESS : string := "".

Record ActiveTab := mkActiveTab {
  tab_trader : string;
  tab_bot : string
}.

(** The global [state], without [marketData], which nothing assigns. *)
Record State := mkState {
  traderPositions : list Position;
  botPositions : list Position;
  traderActivity : list Activity.t;
  botActivity : list Activity.t;
  traderAddress : string;
  botAddress : string;
  isLoading : bool;
  countdown : Z;
  activeTab : ActiveTab
}.

(** The initial value of [state]. *)
Definition initial : State :=
  {| traderPositions := []; botPositions := [];
     traderActivity := []; botActivity := [];
     traderAddress := ""; botAddress := "";
     isLoading := false; countdown := REFRESH_INTERVAL;
     activeTab := {| tab_trader := "open"; tab_bot := "open" |} |}.

(** An entry of a payload: [address] and [positions] or [activity], each
    of which may be missing. *)
Record Entry (A : Type) := mkEntry {
  address : option string;
  items : option (list A)
}.
Arguments address {A} e.
Arguments items {A} e.

(** The three payloads of a refresh, as far as the code reads them.
    Each is an object, as the routes of the dashboard server send it. *)
Record ConfigPayload := mkConfigPayload {
  config_traders : option (list string);
  proxyWallet : option string
}.

Record Payload (A : Type) := mkPayload {
  traders : option (list (Entry A));
  bot : option (Entry A)
}.
Arguments traders {A} p.
Arguments bot {A} p.

Record Payloads := mkPayloads {
  configPayload : ConfigPayload;
  positionsPayload : Payload Position;
  activityPayload : Payload Activity.t
}.

(** [a || b] on texts: the empty text and a missing one are falsy. *)
Definition or_text (a : option string) (b : string) : string :=
  match a with
  | Some text => if String.eqb text "" then b else text
  | None => b
  end.

(** [payload.traders?.[0]] *)
Definition first_trader {A} (p : Payload A) : option (Entry A) :=
  match traders p with
  | Some (entry :: _) => Some entry
  | _ => None
  end.

(** [entry?.items || []] *)
Definition items_or_empty {A} (entry : option (Entry A)) : list A :=
  match entry with
  | Some e => match items e with Some l => l | None => [] end
  | None => []
  end.

(** [entry?.address] *)
Definition address_of {A} (entry : option (Entry A)) : option string :=
  match entry with
  | Some e => address e
  | None => None
  end.

(** The assignments of the [try] block of [loadAllData]. *)
Definition assign (p : Payloads) (st : State) : State :=
  let configTrader :=
    match config_traders (configPayload p) with
    | Some (first :: _) => Some first
    | _ => None
    end in
  let primaryTrader := first_trader (positionsPayload p) in
  {| traderAddress :=
       or_text (address_of primaryTrader) (or_text configTrader TRADER_ADDRESS);
     botAddress :=
       or_text (address_of (bot (positionsPayload p)))
               (or_text (proxyWallet (configPayload p)) BOT_ADDRESS);
     traderPositions := items_or_empty primaryTrader;
     botPositions := items_or_empty (bot (positionsPayload p));
     traderActivity := items_or_empty (first_trader (activityPayload p));
     botActivity := items_or_empty (bot (activityPayload p));
     isLoading := isLoading st;
     countdown := countdown st;
     activeTab := activeTab st |}.

(** The [finally] block of [loadAllData]. *)
Definition finish (st : State) : State :=
  {| traderPositions := traderPositions st; botPositions := botPositions st;
     traderActivity := traderActivity st; botActivity := botActivity st;
     traderAddress := traderAddress st; botAddress := botAddress st;
     isLoading := false; countdown := REFRESH_INTERVAL;
     activeTab := activeTab st |}.

(** [loadAllData] up to its [await]: nothing when a refresh is running,
    else the flag is set and the three requests are sent.  The result
    says whether they were. *)
Definition loadAllData_start (st : State) : State * bool :=
  if isLoading st then (st, false)
  else
    ({| traderPositions := traderPositions st; botPositions := botPositions st;
        traderActivity := traderActivity st; botActivity := botActivity st;
        traderAddress := traderAddress st; botAddress := botAddress st;
        isLoading := true; countdown := countdown st;
        activeTab := activeTab st |}, true).

(** [loadAllData] after its [await]: the three requests have all
    resolved, with the payloads, or one has rejected. *)
Definition loadAllData_resume (answer : option Payloads) (st : State) : State :=
  match answer with
  | Some p => finish (assign p st)
  | None => finish st
  end.

(** What can happen to the page: a second of the countdown, a click on
    the refresh button, the page becoming visible, a click on a tab, and
    the answers to the requests of a refresh. *)
Inductive Input : Type :=
| Tick
| RefreshClick
| BecameVisible
| TabClick (panel tab : string)
| Answers (answer : option Payloads).

(** The page: the state, and the number of refreshes whose requests are
    sent and not yet answered. *)
Record Page := mkPage {
  state : State;
  in_flight : nat
}.

Definition start (st : State) (running : nat) : Page :=
  let '(st', sent) := loadAllData_start st in
  {| state := st'; in_flight := if sent then S running else running |}.

(** The callback of [setInterval] in [startCountdown]. *)
Definition tick (st : State) : State :=
  {| traderPositions := traderPositions st; botPositions := botPositions st;
     traderActivity := traderActivity st; botActivity := botActivity st;
     traderAddress := traderAddress st; botAddress := botAddress st;
     isLoading := isLoading st; countdown := (countdown st - 1)%Z;
     activeTab := activeTab st |}.

(** The listener of a tab button, as far as the state goes: [tab] is the
    tab name with the panel name taken off, in lower case. *)
Definition select_tab (panel tab : string) (st : State) : State :=
  {| traderPositions := traderPositions st; botPositions := botPositions st;
     traderActivity := traderActivity st; botActivity := botActivity st;
     traderAddress := traderAddress st; botAddress := botAddress st;
     isLoading := isLoading st; countdown := countdown st;
     activeTab :=
       if String.eqb panel "trader"
       then {| tab_trader := tab; tab_bot := tab_bot (activeTab st) |}
       else {| tab_trader := tab_trader (activeTab st); tab_bot := tab |} |}.

(** One handler run to completion. *)
Definition step (page : Page) (input : Input) : Page :=
  match input with
  | Tick =>
      let st := tick (state page) in
      if (countdown st <=? 0)%Z then start st (in_flight page)
      else {| state := st; in_flight := in_flight page |}
  | RefreshClick | BecameVisible => start (state page) (in_flight page)
  | TabClick panel tab =>
      {| state := select_tab panel tab (state page);
         in_flight := in_flight page |}
  | Answers answer =>
      match in_flight page with
      | O => page
      | S running =>
          {| state := loadAllData_resume answer (state page);
             in_flight := running |}
      end
  end.

(** The page after the first [loadAllData] of [DOMContentLoaded]. *)
Definition loaded : Page := start initial 0.

Definition run (inputs : list Input) : Page := fold_left step inputs loaded.

End Refresh.

(** ** Vocabulary of the statements *)

Section Vocabulary.

Import Dashboard Reconcile Guard.

(** Some position of the list has the key. *)
Definition has_key (k : string) (ps : list Position) : bool :=
  existsb (fun p => String.eqb (getKey p) k) ps.

(** The current value is absent or at most 0.01. *)
Definition negligible (p : Position) : bool :=
  match currentValue p with
  | None => true
  | Some v => PrimFloat.leb v 0.01
  end.

(** The field is absent or holds a zero. *)
Definition absent_or_zero (v : JS.num) : bool :=
  match v with
  | None => true
  | Some x => PrimFloat.eqb x 0
  end.

(** The field is absent or holds a finite number. *)
Definition absent_or_finite (v : JS.num) : bool :=
  match v with
  | None => true
  | Some x => negb (PrimFloat.is_nan x) && negb (PrimFloat.is_infinity x)
  end.

(** The line logged when a task starts. *)
Definition closing_log (pos : Position) : Event :=
  ELogger LInfo (ClosingStale (label pos) (conditionId pos) (size pos)).

(** The synthetic trade of a task started after the history [h]. *)
Definition trade_of (W : World) (h : History) (pos : Position) : Activity.t :=
  let h1 := h ++ [closing_log pos] in
  syntheticTrade W (new_ObjectId W h1) (Date_now W h1) pos.

(** The call to [postOrder] of a task started after [h], and its
    answer. *)
Definition order_event (W : World) (my_balance : float) (h : History) (pos : Position)
  : Event :=
  EPostOrder "sell" pos None (trade_of W h pos) my_balance 0 "reconcile".

Definition order_answer (W : World) (my_balance : float) (h : History) (pos : Position)
  : Result unit :=
  postOrder W (h ++ [closing_log pos]) "sell" pos None (trade_of W h pos)
            my_balance 0 "reconcile".

(** The event that ends a task: the pause, or the logged failure. *)
Definition task_end (W : World) (my_balance : float) (h : History) (pos : Position)
  : Event :=
  match order_answer W my_balance h pos with
  | Ok _ => ESleep 250
  | Throw err => ELogger LError (FailedToClose (label pos) err)
  end.

(** The orders of a run are the script's: a sale of the position itself,
    with its synthetic trade. *)
Definition scripted (W : World) (candidates : list Position) (e : Event) : Prop :=
  match e with
  | EPostOrder condition pos user_position trade _ user_balance userAddress =>
      In pos candidates /\ condition = "sell" /\ user_position = None /\
      user_balance = 0%float /\ userAddress = "reconcile" /\
      exists oid now, trade = syntheticTrade W oid now pos
  | _ => True
  end.

(** The two lines logged before the balance is fetched. *)
Definition announce (n : nat) : list Event :=
  [ELogger LHeader ReconcileHeader; ELogger LInfo (FoundStale n)].

End Vocabulary.

(** ** Concrete positions and worlds *)

Section Scenarios.

Import Dashboard Reconcile Guard.

(** The bot holds "B|Down", worth 12; no trader holds it. *)
Definition stale_position : Position :=
  {| asset := "77"; conditionId := "0xb"; title := "B"; outcome := "Down";
     outcomeIndex := 1; slug := "b"; icon := ""; eventSlug := "b";
     size := Some 30%float; avgPrice := Some 0.5%float;
     curPrice := Some 0.4%float; currentValue := Some 12%float;
     cashPnl := Some (-3)%float |}.

(** A world with one tracked trader, who holds nothing, in which every
    call succeeds except that [postOrder] answers [order]. *)
Definition world_with (order : Result unit) : World :=
  {| USER_ADDRESSES := ["0xtrader"];
     PROXY_WALLET := "0xbot";
     connectDB := fun _ => Ok tt;
     createClobClient := fun _ => Ok tt;
     fetchData := fun _ url =>
       if String.eqb url (DATA_API_BASE ++ "/positions?user=0xbot")%string
       then Ok [stale_position] else Ok [];
     getMyBalance := fun _ _ => Ok 100%float;
     postOrder := fun _ _ _ _ _ _ _ _ => order;
     connection_close := fun _ => Ok tt;
     Date_now := fun _ => 1700000000999%Z;
     new_ObjectId := fun _ => 1%Z;
     settled_at := fun _ i => Z.of_nat i |}.

(** The bot's stale position in the market named [market]. *)
Definition stale_in (market : string) : Position :=
  {| asset := market; conditionId := market; title := market;
     outcome := "Yes"; outcomeIndex := 0; slug := market; icon := "";
     eventSlug := market; size := Some 10%float; avgPrice := Some 0.5%float;
     curPrice := Some 0.5%float; currentValue := Some 5%float;
     cashPnl := Some 0%float |}.

(** A world in which [postOrder] throws for the market [rejected] and
    returns for every other. *)
Definition world_rejecting (rejected : string) : World :=
  {| USER_ADDRESSES := ["0xtrader"];
     PROXY_WALLET := "0xbot";
     connectDB := fun _ => Ok tt;
     createClobClient := fun _ => Ok tt;
     fetchData := fun _ _ => Ok [];
     getMyBalance := fun _ _ => Ok 100%float;
     postOrder := fun _ _ pos _ _ _ _ _ =>
       if String.eqb (asset pos) rejected then Throw "order rejected"
       else Ok tt;
     connection_close := fun _ => Ok tt;
     Date_now := fun _ => 1700000000999%Z;
     new_ObjectId := fun _ => 1%Z;
     settled_at := fun _ i => Z.of_nat i |}.

(** A world with two tracked traders whose requests both fail, the
    second failure arriving before the first. *)
Definition world_race : World :=
  {| USER_ADDRESSES := ["0xfirst"; "0xsecond"];
     PROXY_WALLET := "0xbot";
     connectDB := fun _ => Ok tt;
     createClobClient := fun _ => Ok tt;
     fetchData := fun _ url =>
       if String.eqb url (DATA_API_BASE ++ "/positions?user=0xfirst")%string
       then Throw "first address failed"
       else Throw "second address failed";
     getMyBalance := fun _ _ => Ok 100%float;
     postOrder := fun _ _ _ _ _ _ _ _ => Ok tt;
     connection_close := fun _ => Ok tt;
     Date_now := fun _ => 1700000000999%Z;
     new_ObjectId := fun _ => 1%Z;
     settled_at := fun _ i => if (i =? 0)%nat then 2%Z else 1%Z |}.

(** A dashboard server tracking two addresses, one of them named twice,
    whose requests both fail, the second failure arriving before the
    first. *)
Definition server_race : Server.World unit :=
  {| Server.USER_ADDRESSES := ["0xfirst"; "0xsecond"; "0xfirst"];
     Server.PROXY_WALLET := "0xbot";
     Server.axios_get := fun _ url =>
       if String.eqb url
            "https://data-api.polymarket.com/positions?user=0xfirst&limit=100"
       then Server.Rejected (Server.ResponseError 503 "Service Unavailable")
       else Server.Rejected (Server.ResponseError 429 "Too Many Requests");
     Server.Date_now := fun _ => 1700000000999%Z;
     Server.parseInt_text := fun text => text;
     Server.settled_at := fun _ i => if (i =? 0)%nat then 2%Z else 1%Z |}.

Definition world_ok : World := world_with (Ok tt).
Definition world_throw : World := world_with (Throw "order rejected").

(** A trader position with entry price 0 and the bot's position in the
    same market, bought at 0.5. *)
Definition trader_zero_entry : Position :=
  {| asset := "1"; conditionId := "0xa"; title := "A"; outcome := "Up";
     outcomeIndex := 0; slug := "a"; icon := ""; eventSlug := "a";
     size := Some 10%float; avgPrice := Some 0%float;
     curPrice := Some 0.5%float; currentValue := Some 5%float;
     cashPnl := Some 5%float |}.

Definition bot_half_entry : Position :=
  {| asset := "1"; conditionId := "0xa"; title := "A"; outcome := "Up";
     outcomeIndex := 0; slug := "a"; icon := ""; eventSlug := "a";
     size := Some 2%float; avgPrice := Some 0.5%float;
     curPrice := Some 0.5%float; currentValue := Some 1%float;
     cashPnl := Some 0%float |}.

(** A position with no price, of the smallest size a number can hold. *)
Definition dust_position : Position :=
  {| asset := "78"; conditionId := "0xc"; title := "C"; outcome := "Yes";
     outcomeIndex := 0; slug := "c"; icon := ""; eventSlug := "c";
     size := Some 0x1p-1074%float; avgPrice := Some 0%float;
     curPrice := None; currentValue := Some 1%float;
     cashPnl := None |}.

(** A position with no price, of a size too large for a number
    (the JSON text [1e999] is read as [Infinity]). *)
Definition huge_position : Position :=
  {| asset := "79"; conditionId := "0xd"; title := "D"; outcome := "No";
     outcomeIndex := 1; slug := "d"; icon := ""; eventSlug := "d";
     size := Some PrimFloat.infinity; avgPrice := None;
     curPrice := Some 0%float; currentValue := Some 1%float;
     cashPnl := None |}.

(** The defaults of the configuration, with the action set to skip. *)
Definition skip_config : SlippageConfig :=
  {| maxSlippagePct := 1; waitMs := 30000; maxRetries := 20;
     minBookSizeUsd := 5; action := skip |}.

(** A bid a fifth below the reference price of 0.5. *)
Definition fallen_quote : Quote :=
  {| bestBid := 0.4; bestAsk := 0.41; bidSize := 1000; askSize := 1000 |}.

(** A position of size 100 whose current value is exactly 0.01. *)
Definition worthless_position : Position :=
  {| asset := "80"; conditionId := "0xe"; title := "E"; outcome := "Yes";
     outcomeIndex := 0; slug := "e"; icon := ""; eventSlug := "e";
     size := Some 100%float; avgPrice := Some 0.3%float;
     curPrice := Some 0.0001%float; currentValue := Some 0.01%float;
     cashPnl := Some (-29.99)%float |}.

End Scenarios.

(** ** Vocabulary of the properties of the dashboard and of the run *)

Section FurtherVocabulary.

Import Dashboard Reconcile Builtins Panels.

(** The rate of [matches] out of [len] positions, as the last line of
    [calculateMatchRate] computes it. *)
Definition rate_of (matches len : nat) : float :=
  Math_round (number_of_nat matches / number_of_nat len * 100)%float.

(** What the rounded rate must satisfy. *)
Definition rate_ok (matches len : nat) : bool :=
  let r := rate_of matches len in
  existsb (fun k => PrimFloat.Leibniz.eqb r (number_of_nat k)) (seq 0 101)
  && Bool.eqb (PrimFloat.Leibniz.eqb r 100) (matches =? len)%nat
  && Bool.eqb (PrimFloat.Leibniz.eqb r 0) (matches =? 0)%nat.

(** The number nearest to [k / 100]: what a price written with two
    decimals is read as. *)
Definition two_decimals (k : nat) : float :=
  (number_of_nat k / 100)%float.

(** The distinct elements of a list, each at the place of its first
    occurrence. *)
Fixpoint first_occurrences (l : list string) : list string :=
  match l with
  | [] => []
  | a :: l' =>
      a :: List.filter (fun b => negb (String.eqb b a)) (first_occurrences l')
  end.

(** The text of [limit] in the URLs of a request. *)
Definition limit_text {Data} (W : Server.World Data) (default_limit : string)
           (query_limit : option string) : string :=
  Server.parseInt_text Data W
    (match query_limit with
     | Some text => if String.eqb text "" then default_limit else text
     | None => default_limit
     end).

(** The URL the route asks for the data of an address. *)
Definition route_url (resource limit address : string) : string :=
  (Server.DATA_API_BASE ++ "/" ++ resource ++ "?user=" ++ address
   ++ "&limit=" ++ limit)%string.

(** What holds of the page between two handlers. *)
Definition page_ok (page : Refresh.Page) : Prop :=
  (Refresh.in_flight page <= 1)%nat /\
  (Refresh.isLoading (Refresh.state page) = true <->
   Refresh.in_flight page = 1%nat) /\
  (Refresh.countdown (Refresh.state page) <= Refresh.REFRESH_INTERVAL)%Z /\
  (Refresh.isLoading (Refresh.state page) = false ->
   (1 <= Refresh.countdown (Refresh.state page))%Z).

(** What the page shows of the data of a refresh: the positions and the
    activity of the trader and of the bot, and the two addresses. *)
Definition shown (st : Refresh.State)
  : list Position * list Position * list Activity.t * list Activity.t
    * string * string :=
  (Refresh.traderPositions st, Refresh.botPositions st,
   Refresh.traderActivity st, Refresh.botActivity st,
   Refresh.traderAddress st, Refresh.botAddress st).

(** The first of the texts that is there and not empty, and the empty
    text when there is none. *)
Fixpoint first_nonempty (texts : list (option string)) : string :=
  match texts with
  | [] => ""
  | Some text :: rest =>
      if String.eqb text "" then first_nonempty rest else text
  | None :: rest => first_nonempty rest
  end.

(** The items of an entry, and no item when the entry or its items are
    missing. *)
Definition items_of {A} (entry : option (Refresh.Entry A)) : list A :=
  default [] (e ← entry; Refresh.items e).

(** The first entry of the traders of a payload. *)
Definition first_entry {A} (payload : Refresh.Payload A)
  : option (Refresh.Entry A) :=
  l ← Refresh.traders payload; hd_error l.

(** What the payloads of a refresh show: the data of the first trader
    entry and of the bot entry of each payload. *)
Definition shown_of (p : Refresh.Payloads)
  : list Position * list Position * list Activity.t * list Activity.t
    * string * string :=
  let positions := Refresh.positionsPayload p in
  let activity := Refresh.activityPayload p in
  let config := Refresh.configPayload p in
  (items_of (first_entry positions), items_of (Refresh.bot positions),
   items_of (first_entry activity), items_of (Refresh.bot activity),
   first_nonempty [e ← first_entry positions; Refresh.address e;
                   l ← Refresh.config_traders config; hd_error l],
   first_nonempty [e ← Refresh.bot positions; Refresh.address e;
                   Refresh.proxyWallet config]).

(** An order that carries the balance [b]; no balance is looked up. *)
Definition carries (b : float) (e : Event) : Prop :=
  match e with
  | EPostOrder _ _ _ _ my_balance _ _ => my_balance = b
  | EGetMyBalance _ => False
  | _ => True
  end.

(** The last position of a list that has the key [k]. *)
Definition last_with_key (k : string) (ps : list Position) : option Position :=
  find (fun p => String.eqb (getKey p) k) (rev ps).

End FurtherVocabulary.

Section FloatFacts.

Lemma SFcompare_swap (x y : spec_float) :
  SFcompare y x = option_map CompOpp (SFcompare x y).
Proof.
  destruct x as [sx|sx| |sx mx ex], y as [sy|sy| |sy my ey]; simpl;
    try reflexivity;
    try (destruct sx; reflexivity); try (destruct sy; reflexivity);
    try (destruct sx, sy; reflexivity).
  destruct sx, sy; simpl; try reflexivity;
    rewrite (Z.compare_antisym ey ex);
    destruct (ey ?= ex)%Z; simpl; try reflexivity;
    change (Pos.compare_cont Eq my mx) with (Pos.compare my mx);
    change (Pos.compare_cont Eq mx my) with (Pos.compare mx my);
    rewrite (Pos.compare_antisym my mx); try reflexivity.
  all: destruct (my ?= mx)%positive; reflexivity.
Qed.

(** [x <= y] excludes [x > y]. *)
Lemma leb_not_gt (x y : float) :
  PrimFloat.leb x y = true -> JS.gt x y = false.
Proof.
  unfold JS.gt. rewrite leb_spec, ltb_spec.
  unfold SFleb, SFltb. rewrite (SFcompare_swap (Prim2SF x) (Prim2SF y)).
  destruct (SFcompare (Prim2SF x) (Prim2SF y)) as [[]|]; simpl; congruence.
Qed.

(** [x == y] excludes [x > y]. *)
Lemma eqb_not_gt (x y : float) :
  PrimFloat.eqb x y = true -> JS.gt x y = false.
Proof.
  unfold JS.gt. rewrite FloatAxioms.eqb_spec, ltb_spec.
  unfold SFeqb, SFltb. rewrite (SFcompare_swap (Prim2SF x) (Prim2SF y)).
  destruct (SFcompare (Prim2SF x) (Prim2SF y)) as [[]|]; simpl; congruence.
Qed.

(** A number above zero is truthy. *)
Lemma gt_zero_truthy (x : float) :
  JS.gt x 0 = true -> JS.truthy_float x = true.
Proof.
  unfold JS.gt, JS.truthy_float, PrimFloat.is_zero, PrimFloat.is_nan.
  rewrite ltb_spec, !FloatAxioms.eqb_spec.
  change (Prim2SF 0%float) with (S754_zero false).
  change (Prim2SF PrimFloat.zero) with (S754_zero false).
  unfold SFltb, SFeqb.
  destruct (Prim2SF x) as [sx|sx| |sx mx ex]; simpl; try congruence.
  - destruct sx; simpl; congruence.
  - destruct sx; simpl; [congruence|]. intros _.
    rewrite Z.compare_refl.
    change (Pos.compare_cont Eq mx mx) with (Pos.compare mx mx).
    rewrite Pos.compare_refl. reflexivity.
Qed.

(** A number that is neither a zero nor [NaN] is truthy. *)
Lemma nonzero_number_truthy (x : float) :
  PrimFloat.is_nan x = false -> PrimFloat.eqb x 0 = false ->
  JS.truthy_float x = true.
Proof.
  unfold JS.truthy_float, PrimFloat.is_zero.
  change PrimFloat.zero with 0%float. intros -> ->. reflexivity.
Qed.

(** A falsy number is a zero or [NaN]. *)
Lemma truthy_float_false (x : float) :
  JS.truthy_float x = false <->
  PrimFloat.eqb x 0%float = true \/ PrimFloat.is_nan x = true.
Proof.
  unfold JS.truthy_float, PrimFloat.is_zero.
  change PrimFloat.zero with 0%float.
  rewrite negb_false_iff, orb_true_iff. reflexivity.
Qed.

(** A product with zero is a zero, unless the other factor is infinite
    or [NaN]. *)
Lemma mul_zero_r (x : float) :
  PrimFloat.is_nan x = false -> PrimFloat.is_infinity x = false ->
  PrimFloat.is_zero (x * 0)%float = true.
Proof.
  unfold PrimFloat.is_nan, PrimFloat.is_infinity, PrimFloat.is_zero.
  rewrite !FloatAxioms.eqb_spec, abs_spec, mul_spec.
  destruct (Prim2SF x) as [sx|sx| |sx mx ex]; vm_compute; congruence.
Qed.

(** A zero is different from everything that is not a zero. *)
Lemma zero_neq_nonzero (a b : float) :
  PrimFloat.is_zero a = true -> PrimFloat.is_zero b = false ->
  PrimFloat.eqb a b = false.
Proof.
  unfold PrimFloat.is_zero. rewrite !FloatAxioms.eqb_spec.
  change (Prim2SF PrimFloat.zero) with (S754_zero false).
  destruct (Prim2SF a) as [sa|sa| |sa ma ea], (Prim2SF b) as [sb|sb| |sb mb eb];
    unfold SFeqb; simpl; try congruence;
    try (destruct sa; congruence); try (destruct sb; congruence);
    try (destruct sa, sb; congruence).
Qed.

End FloatFacts.

(** ** The matcher: lookups in the key objects *)

Section MatcherFacts.

Import Dashboard.

Lemma obj_get_set (k k' : string) (v : Position) (o : Obj) :
  obj_get k (obj_set k' v o) =
  if String.eqb k k' then Some v else obj_get k o.
Proof.
  induction o as [|[k0 v0] o IH]; simpl.
  - reflexivity.
  - destruct (String.eqb_spec k' k0) as [->|Hne]; simpl.
    + destruct (String.eqb_spec k k0); reflexivity.
    + rewrite IH.
      destruct (String.eqb_spec k k0) as [->|Hne'].
      * destruct (String.eqb_spec k0 k'); congruence.
      * reflexivity.
Qed.

Lemma obj_get_fold_none (ps : list Position) (o : Obj) (k : string) :
  obj_get k (fold_left (fun o p => obj_set (getKey p) p o) ps o) = None <->
  obj_get k o = None /\ has_key k ps = false.
Proof.
  revert o. induction ps as [|p ps IH]; intros o; simpl.
  - tauto.
  - rewrite IH, obj_get_set, (String.eqb_sym (getKey p) k).
    destruct (String.eqb k (getKey p)); simpl; split; intros [? ?];
      split; congruence.
Qed.

Lemma obj_get_fold_some (ps : list Position) (o : Obj) (k : string)
      (v : Position) :
  obj_get k (fold_left (fun o p => obj_set (getKey p) p o) ps o) = Some v ->
  (In v ps /\ getKey v = k) \/ obj_get k o = Some v.
Proof.
  revert o. induction ps as [|p ps IH]; intros o; simpl.
  - auto.
  - intros H. destruct (IH _ H) as [[Hin Hk]|Hget].
    + left; auto.
    + rewrite obj_get_set in Hget.
      destruct (String.eqb_spec k (getKey p)) as [->|Hne].
      * left. inversion Hget; subst. auto.
      * right. exact Hget.
Qed.

Lemma obj_get_byKey_none (ps : list Position) (k : string) :
  obj_get k (byKey ps) = None <-> has_key k ps = false.
Proof.
  unfold byKey. rewrite obj_get_fold_none. simpl. tauto.
Qed.

Lemma obj_get_byKey_some (ps : list Position) (k : string) (v : Position) :
  obj_get k (byKey ps) = Some v -> In v ps /\ getKey v = k.
Proof.
  unfold byKey. intros H.
  destruct (obj_get_fold_some _ _ _ _ H) as [?|H0]; [assumption|discriminate].
Qed.

Lemma has_key_false (k : string) (ps : list Position) :
  has_key k ps = false <-> forall p, In p ps -> getKey p <> k.
Proof.
  unfold has_key. induction ps as [|q ps IH]; simpl.
  - split; [intros _ p []|reflexivity].
  - rewrite orb_false_iff, IH. split.
    + intros [Hq Hps] p [<-|Hin]; [|auto].
      destruct (String.eqb_spec (getKey q) k); congruence.
    + intros H. split; [|auto].
      destruct (String.eqb_spec (getKey q) k) as [e|]; [|reflexivity].
      exfalso. exact (H q (or_introl eq_refl) e).
Qed.

Lemma absent_from_byKey (ps : list Position) (p : Position) :
  absent_from (byKey ps) p = negb (has_key (getKey p) ps).
Proof.
  unfold absent_from.
  destruct (obj_get (getKey p) (byKey ps)) eqn:E.
  - destruct (has_key (getKey p) ps) eqn:Hk; [reflexivity|].
    apply obj_get_byKey_none in Hk. congruence.
  - apply obj_get_byKey_none in E. rewrite E. reflexivity.
Qed.

(** A matched pair holds what the two objects hold under its key. *)
Lemma matchedPairs_lookup (traderByKey botByKey : Obj) (pair : MatchedPair) :
  In pair (matchedPairs_of traderByKey botByKey) ->
  obj_get (key pair) traderByKey = Some (trader pair) /\
  obj_get (key pair) botByKey = Some (bot pair).
Proof.
  unfold matchedPairs_of. rewrite in_flat_map. intros (k & _ & Hin).
  unfold pairs_of_key in Hin.
  destruct (obj_get k botByKey) eqn:Eb; [|destruct Hin].
  destruct (obj_get k traderByKey) eqn:Et; [|destruct Hin].
  destruct Hin as [<-|[]]. simpl. auto.
Qed.

Lemma matchedPairs_none (traderByKey botByKey : Obj) :
  (forall k, In k (obj_keys traderByKey) -> obj_get k botByKey = None) ->
  matchedPairs_of traderByKey botByKey = [].
Proof.
  unfold matchedPairs_of. intros H.
  induction (obj_keys traderByKey) as [|k ks IH]; simpl; [reflexivity|].
  unfold pairs_of_key at 1. rewrite (H k) by (left; reflexivity).
  simpl. apply IH. intros k' Hk'. apply H. right. exact Hk'.
Qed.

Lemma obj_keys_get (o : Obj) (k : string) :
  In k (obj_keys o) -> exists v, obj_get k o = Some v.
Proof.
  unfold obj_keys. induction o as [|[k0 v0] o IH]; simpl.
  - intros [].
  - intros [<-|Hin].
    + rewrite String.eqb_refl. eauto.
    + destruct (String.eqb k k0); eauto.
Qed.

Lemma filter_all {A} (f : A -> bool) (l : list A) :
  (forall x, In x l -> f x = true) -> List.filter f l = l.
Proof.
  induction l as [|a l IH]; simpl; intros H; [reflexivity|].
  rewrite (H a) by auto. f_equal. apply IH. auto.
Qed.

End MatcherFacts.

(** ** The matcher: matched pairs and the two unmatched lists *)

Section MatcherTheorems.

Import Dashboard.

(** C5.  When no open trader position shares its key with an open bot
    position, there is no matched pair and the two unmatched lists are
    the open positions of each side.  In general [traderOnly] is the
    list of the open trader positions whose key no open bot position
    has, [botOnly] is the same with the sides exchanged, and no position
    of either list has the key of a matched pair or is one of its two
    positions. *)
Theorem C5_matcher_unmatched_lists (tps bps : list Position) :
  let r := renderPairedPositions tps bps in
  let topen := List.filter isOpen tps in
  let bopen := List.filter isOpen bps in
  ((forall t b, In t topen -> In b bopen -> getKey t <> getKey b) ->
   matchedPairs r = [] /\ traderOnly r = topen /\ botOnly r = bopen) /\
  traderOnly r = List.filter (fun p => negb (has_key (getKey p) bopen)) topen /\
  botOnly r = List.filter (fun p => negb (has_key (getKey p) topen)) bopen /\
  (forall pair, In pair (matchedPairs r) ->
     has_key (key pair) topen = true /\ has_key (key pair) bopen = true /\
     (forall p, In p (traderOnly r) ->
        getKey p <> key pair /\ p <> trader pair) /\
     (forall p, In p (botOnly r) ->
        getKey p <> key pair /\ p <> bot pair)).
Proof.
  intros r topen bopen. subst r. unfold renderPairedPositions. simpl.
  fold topen bopen.
  assert (HT : List.filter (absent_from (byKey bopen)) topen =
               List.filter (fun p => negb (has_key (getKey p) bopen)) topen).
  { apply filter_ext. intros p. apply absent_from_byKey. }
  assert (HB : List.filter (absent_from (byKey topen)) bopen =
               List.filter (fun p => negb (has_key (getKey p) topen)) bopen).
  { apply filter_ext. intros p. apply absent_from_byKey. }
  split; [|split; [exact HT|split; [exact HB|]]].
  - intros Hdisj. split; [|split].
    + apply matchedPairs_none. intros k Hk.
      destruct (obj_keys_get _ _ Hk) as [t Ht].
      apply obj_get_byKey_some in Ht. destruct Ht as [Hin <-].
      apply obj_get_byKey_none, has_key_false.
      intros b Hb e. exact (Hdisj t b Hin Hb (eq_sym e)).
    + rewrite HT. apply filter_all. intros t Ht.
      apply negb_true_iff, has_key_false.
      intros b Hb e. exact (Hdisj t b Ht Hb (eq_sym e)).
    + rewrite HB. apply filter_all. intros b Hb.
      apply negb_true_iff, has_key_false.
      intros t Ht e. exact (Hdisj t b Ht Hb e).
  - intros pair Hpair.
    destruct (matchedPairs_lookup _ _ _ Hpair) as [Ht Hb].
    assert (Kt : has_key (key pair) topen = true).
    { destruct (has_key (key pair) topen) eqn:E; [reflexivity|].
      apply obj_get_byKey_none in E. congruence. }
    assert (Kb : has_key (key pair) bopen = true).
    { destruct (has_key (key pair) bopen) eqn:E; [reflexivity|].
      apply obj_get_byKey_none in E. congruence. }
    apply obj_get_byKey_some in Ht, Hb.
    destruct Ht as [_ Ht], Hb as [_ Hb].
    split; [exact Kt|split; [exact Kb|split]].
    + intros p Hp. rewrite HT in Hp. apply filter_In in Hp.
      destruct Hp as [_ Hp]. apply negb_true_iff in Hp.
      assert (Hne : getKey p <> key pair) by congruence.
      split; [exact Hne|]. intros ->. congruence.
    + intros p Hp. rewrite HB in Hp. apply filter_In in Hp.
      destruct Hp as [_ Hp]. apply negb_true_iff in Hp.
      assert (Hne : getKey p <> key pair) by congruence.
      split; [exact Hne|]. intros ->. congruence.
Qed.

End MatcherTheorems.

(** ** Closed positions *)

Section ClosedPositions.

Import Dashboard Reconcile.

Lemma negligible_closed (p : Position) :
  negligible p = true -> isOpen p = false.
Proof.
  unfold negligible, isOpen, JS.or_lit.
  destruct (currentValue p) as [v|]; [|reflexivity].
  intros Hle. destruct (JS.truthy_float v); [|reflexivity].
  apply leb_not_gt. exact Hle.
Qed.

Lemma filter_without {A} (f : A -> bool) (l1 l2 : list A) (x : A) :
  f x = false -> List.filter f (l1 ++ x :: l2) = List.filter f (l1 ++ l2).
Proof.
  intros Hx. rewrite !List.filter_app. simpl. rewrite Hx. reflexivity.
Qed.

Lemma openConditions_without (rs1 rs2 : list (list Position))
      (r1 r2 : list Position) (p : Position) :
  isOpen p = false ->
  openConditions (rs1 ++ (r1 ++ p :: r2) :: rs2) =
  openConditions (rs1 ++ (r1 ++ r2) :: rs2).
Proof.
  intros Hp. unfold openConditions. rewrite !fold_left_app. simpl.
  rewrite (filter_without isOpen r1 r2 p Hp). reflexivity.
Qed.

(** C6.  A position whose current value is absent or at most 0.01 is
    closed, whatever its size.  It takes no part in matching: leaving it
    out of either input of the matcher changes nothing, and it is in
    neither unmatched list and in no matched pair.  It takes no part in
    reconciliation: leaving it out of a trader's positions or of the
    bot's changes nothing in the run, and it is never among the stale
    positions. *)
Theorem C6_negligible_value_is_excluded (p : Position) :
  negligible p = true ->
  isOpen p = false /\
  (forall tps1 tps2 bps,
     renderPairedPositions (tps1 ++ p :: tps2) bps =
     renderPairedPositions (tps1 ++ tps2) bps) /\
  (forall tps bps1 bps2,
     renderPairedPositions tps (bps1 ++ p :: bps2) =
     renderPairedPositions tps (bps1 ++ bps2)) /\
  (forall tps bps,
     let r := renderPairedPositions tps bps in
     ~ In p (traderOnly r) /\ ~ In p (botOnly r) /\
     forall pair, In pair (matchedPairs r) ->
                  trader pair <> p /\ bot pair <> p) /\
  (forall W rs1 r1 r2 rs2 bots,
     reconcile W (rs1 ++ (r1 ++ p :: r2) :: rs2) bots =
     reconcile W (rs1 ++ (r1 ++ r2) :: rs2) bots) /\
  (forall W rs b1 b2,
     reconcile W rs (b1 ++ p :: b2) = reconcile W rs (b1 ++ b2)) /\
  (forall rs bots, ~ In p (botOnly_of rs bots)).
Proof.
  intros Hneg. pose proof (negligible_closed p Hneg) as Hp.
  split; [exact Hp|].
  split; [|split; [|split; [|split; [|split]]]].
  - intros. unfold renderPairedPositions.
    rewrite (filter_without isOpen tps1 tps2 p Hp). reflexivity.
  - intros. unfold renderPairedPositions.
    rewrite (filter_without isOpen bps1 bps2 p Hp). reflexivity.
  - intros tps bps r. subst r. unfold renderPairedPositions. simpl.
    split; [|split].
    + intros Hin. apply filter_In in Hin. destruct Hin as [Hin _].
      apply filter_In in Hin. destruct Hin as [_ Hin]. congruence.
    + intros Hin. apply filter_In in Hin. destruct Hin as [Hin _].
      apply filter_In in Hin. destruct Hin as [_ Hin]. congruence.
    + intros pair Hpair.
      destruct (matchedPairs_lookup _ _ _ Hpair) as [Ht Hb].
      apply obj_get_byKey_some in Ht, Hb.
      destruct Ht as [Ht _], Hb as [Hb _].
      apply filter_In in Ht, Hb. destruct Ht as [_ Ht], Hb as [_ Hb].
      split; intros E; rewrite E in *; congruence.
  - intros. unfold reconcile, botOnly_of.
    rewrite (openConditions_without rs1 rs2 r1 r2 p Hp). reflexivity.
  - intros. unfold reconcile, botOnly_of.
    rewrite (filter_without isOpen b1 b2 p Hp). reflexivity.
  - intros rs bots Hin. unfold botOnly_of in Hin.
    apply filter_In in Hin. destruct Hin as [Hin _].
    apply filter_In in Hin. destruct Hin as [_ Hin]. congruence.
Qed.

(** A position of size 100 worth exactly 0.01 is closed and never
    stale. *)
Lemma C6_witness :
  negligible worthless_position = true /\
  isOpen worthless_position = false /\
  (forall rs bots, ~ In worthless_position (botOnly_of rs bots)).
Proof.
  assert (H : negligible worthless_position = true) by (vm_compute; reflexivity).
  split; [exact H|].
  split; [exact (proj1 (C6_negligible_value_is_excluded worthless_position H))|].
  apply (C6_negligible_value_is_excluded worthless_position H).
Defined.

End ClosedPositions.

(** ** The matcher: slippage statistics *)

Section SlippageStatistics.

Import Dashboard.

(** The row of a pair whose trader entry price is positive shows the
    formula. *)
Lemma slippagePct_positive_entry (pair : MatchedPair) :
  JS.gt_num (avgPrice (trader pair)) 0 = true ->
  slippagePct pair = slippage_formula pair.
Proof. unfold slippagePct. intros ->. reflexivity. Qed.

(** The row of a pair whose trader entry price is zero shows [0]. *)
Lemma slippagePct_zero_entry (pair : MatchedPair) (x : float) :
  avgPrice (trader pair) = Some x -> PrimFloat.eqb x 0 = true ->
  slippagePct pair = 0%float.
Proof.
  unfold slippagePct, JS.gt_num. intros -> Hx. simpl.
  rewrite (eqb_not_gt x 0 Hx). reflexivity.
Qed.

Lemma fold_sum_ext (f g : MatchedPair -> float) (pairs : list MatchedPair)
      (acc : float) :
  (forall pair, In pair pairs -> f pair = g pair) ->
  fold_left (fun sum pair => (sum + f pair)%float) pairs acc =
  fold_left (fun sum pair => (sum + g pair)%float) pairs acc.
Proof.
  revert acc. induction pairs as [|pair pairs IH]; intros acc H; simpl.
  - reflexivity.
  - rewrite (H pair) by (left; reflexivity).
    apply IH. intros q Hq. apply H. right. exact Hq.
Qed.

Lemma fold_sum_map (g : MatchedPair -> float) (pairs : list MatchedPair)
      (acc : float) :
  fold_left (fun sum pair => (sum + g pair)%float) pairs acc =
  fold_left (fun sum x => (sum + x)%float) (map g pairs) acc.
Proof.
  revert acc. induction pairs as [|pair pairs IH]; intros acc; simpl.
  - reflexivity.
  - apply IH.
Qed.

(** When every trader entry price is positive, the average is the sum of
    the rows' percentages divided by their number: no size or value
    enters it. *)
Lemma avgSlippagePct_mean_of_rows (pairs : list MatchedPair) :
  pairs <> [] ->
  (forall pair, In pair pairs ->
                JS.gt_num (avgPrice (trader pair)) 0 = true) ->
  avgSlippagePct pairs =
  (fold_left (fun sum x => (sum + x)%float) (map slippagePct pairs) 0
   / length_number (map slippagePct pairs))%float.
Proof.
  intros Hne Hpos. unfold avgSlippagePct.
  destruct pairs as [|pair pairs]; [congruence|].
  change (0 <? length (pair :: pairs))%nat with true. cbv iota.
  unfold length_number. rewrite length_map.
  rewrite <- fold_sum_map. f_equal.
  apply fold_sum_ext. intros q Hq. symmetry.
  apply slippagePct_positive_entry, Hpos, Hq.
Qed.

(** C7.  On a matched pair whose trader entry price is 0 the row shows a
    slippage of 0, as the guard of the row says, and the average, which
    has no such guard, divides by the entry price and is infinite: it is
    not the mean of the rows. *)
Theorem C7_average_divides_by_zero_entry :
  let r := renderPairedPositions [trader_zero_entry] [bot_half_entry] in
  map key (matchedPairs r) = ["A|Up"] /\
  rowSlippage r = [0%float] /\
  avgSlippage r = PrimFloat.infinity /\
  (fold_left (fun sum x => (sum + x)%float) (rowSlippage r) 0
   / length_number (rowSlippage r))%float = 0%float.
Proof. vm_compute. repeat split; reflexivity. Qed.

End SlippageStatistics.

(** ** The reconciliation run: what one task and the loop do *)

Section ReconcileRuns.

Import Reconcile.

Variable W : World.

Lemma loop_body_run (my_balance : float) (pos : Position) (h : History) :
  loop_body W my_balance pos h =
  (h ++ [closing_log pos; order_event W my_balance h pos;
         task_end W my_balance h pos], Ok tt).
Proof.
  unfold loop_body, try_catch, close_position, bind, emit, call, ask,
    task_end, order_answer, order_event, trade_of, closing_log.
  cbv beta iota zeta.
  destruct (postOrder W _ _ _ _ _ _ _ _) as [[]|err];
    cbv beta iota; rewrite <- !app_assoc; reflexivity.
Qed.

Lemma scripted_incl (l l' : list Position) (e : Event) :
  (forall p, In p l -> In p l') -> scripted W l e -> scripted W l' e.
Proof.
  intros Hincl. destruct e; simpl; try tauto.
  intros (Hin & H). split; [apply Hincl, Hin|exact H].
Qed.

Lemma for_of_run (my_balance : float) (l : list Position) (h : History) :
  exists new,
    for_of l (loop_body W my_balance) h = (h ++ new, Ok tt) /\
    attempted new = l /\
    length (List.filter is_pause new) <= length l /\
    Forall (scripted W l) new.
Proof.
  revert h. induction l as [|pos l IH]; intros h; simpl.
  - exists []. rewrite app_nil_r. repeat split; auto.
  - unfold bind. rewrite loop_body_run.
    destruct (IH (h ++ [closing_log pos; order_event W my_balance h pos;
                        task_end W my_balance h pos]))
      as (new & Hrun & Hatt & Hpause & Hall).
    exists ([closing_log pos; order_event W my_balance h pos;
             task_end W my_balance h pos] ++ new).
    rewrite Hrun, <- app_assoc. split; [reflexivity|]. split; [|split].
    + simpl. unfold task_end.
      destruct (order_answer W my_balance h pos); simpl; rewrite Hatt;
        reflexivity.
    + simpl. unfold task_end.
      destruct (order_answer W my_balance h pos); simpl; lia.
    + apply Forall_app. split.
      * repeat constructor; simpl; eauto.
        unfold task_end. destruct (order_answer W my_balance h pos); exact I.
      * eapply List.Forall_impl; [|exact Hall].
        intros e. apply scripted_incl. intros p Hp. right. exact Hp.
Qed.

Lemma reconcile_empty (responses : list (list Position))
      (botPositions : list Position) (h : History) :
  botOnly_of responses botPositions = [] ->
  reconcile W responses botPositions h =
  (h ++ [ELogger LSuccess NoStalePositions; ECloseConnection],
   connection_close W (h ++ [ELogger LSuccess NoStalePositions])).
Proof.
  intros E. unfold reconcile. rewrite E. simpl.
  unfold bind, emit, call. simpl. rewrite <- app_assoc. reflexivity.
Qed.

Lemma reconcile_balance_fails (responses : list (list Position))
      (botPositions : list Position) (h : History) (err : string) :
  let botOnly := botOnly_of responses botPositions in
  botOnly <> [] ->
  getMyBalance W (h ++ announce (length botOnly)) (PROXY_WALLET W) = Throw err ->
  reconcile W responses botPositions h =
  (h ++ announce (length botOnly) ++ [EGetMyBalance (PROXY_WALLET W)],
   Throw err).
Proof.
  intros botOnly Hne Hbal. unfold reconcile. fold botOnly.
  destruct botOnly as [|p l] eqn:E; [congruence|].
  change (length (p :: l) =? 0)%nat with false. cbv iota.
  unfold bind, emit, call, announce in *. simpl in *.
  rewrite <- !app_assoc. simpl. rewrite Hbal.
  reflexivity.
Qed.

Lemma reconcile_nonempty (responses : list (list Position))
      (botPositions : list Position) (h : History) (my_balance : float) :
  let botOnly := botOnly_of responses botPositions in
  botOnly <> [] ->
  getMyBalance W (h ++ announce (length botOnly)) (PROXY_WALLET W)
    = Ok my_balance ->
  exists new,
    reconcile W responses botPositions h =
    (h ++ (announce (length botOnly) ++ [EGetMyBalance (PROXY_WALLET W)] ++ new)
       ++ [ECloseConnection],
     connection_close W
       (h ++ announce (length botOnly) ++ [EGetMyBalance (PROXY_WALLET W)] ++ new)) /\
    for_of botOnly (loop_body W my_balance)
           (h ++ announce (length botOnly) ++ [EGetMyBalance (PROXY_WALLET W)])
      = ((h ++ announce (length botOnly) ++ [EGetMyBalance (PROXY_WALLET W)]) ++ new,
         Ok tt) /\
    attempted new = botOnly /\
    length (List.filter is_pause new) <= length botOnly /\
    Forall (scripted W botOnly) new.
Proof.
  intros botOnly Hne Hbal. unfold reconcile. fold botOnly.
  destruct botOnly as [|p l] eqn:E; [congruence|].
  change (length (p :: l) =? 0)%nat with false. cbv iota.
  destruct (for_of_run my_balance (p :: l)
              (h ++ announce (length (p :: l)) ++ [EGetMyBalance (PROXY_WALLET W)]))
    as (new & Hrun & Hatt & Hpause & Hall).
  exists new. split; [|auto].
  unfold bind, emit, call, announce in *.
  cbv beta iota. rewrite <- !app_assoc. simpl in *. rewrite Hbal.
  cbv beta iota. rewrite <- ?app_assoc in Hrun. simpl in Hrun.
  rewrite Hrun. rewrite <- ?app_assoc. reflexivity.
Qed.

Lemma first_rejection_none {B} (time : nat -> Z) (i : nat)
      (rs : list (Result B)) (best : option (nat * string)) :
  first_rejection time i rs best = None ->
  best = None /\ rs = map Ok (resolved rs).
Proof.
  revert i best. induction rs as [|[b|e] rs IH]; intros i best; simpl.
  - auto.
  - intros H. destruct (IH _ _ H) as [Hb Hrs]. split; [exact Hb|].
    f_equal. exact Hrs.
  - intros H. destruct (IH _ _ H) as [Hb _]. exfalso.
    destruct best as [[j e']|]; [destruct (time i <? time j)%Z|]; discriminate.
Qed.

(** The rejection chosen is one of the rejections, and none settles
    before it. *)
Lemma first_rejection_earliest {B} (time : nat -> Z) (rs : list (Result B))
      (i : nat) (best : option (nat * string)) (j : nat) (e : string) :
  first_rejection time i rs best = Some (j, e) ->
  (best = Some (j, e) \/
   exists n, j = (i + n)%nat /\ nth_error rs n = Some (Throw e)) /\
  (forall k e', best = Some (k, e') -> (time j <= time k)%Z) /\
  (forall n e', nth_error rs n = Some (Throw e') ->
                (time j <= time (i + n)%nat)%Z).
Proof.
  revert i best. induction rs as [|[b|e0] rs IH]; intros i best; simpl.
  - intros ->. split; [auto|]. split.
    + intros k e' E. injection E as <- _. lia.
    + intros [|n] e' E; discriminate.
  - intros H. destruct (IH _ _ H) as (H1 & H2 & H3). split; [|split].
    + destruct H1 as [H1|(n & -> & Hn)]; [auto|].
      right. exists (S n). split; [lia|exact Hn].
    + exact H2.
    + intros [|n] e' E; [discriminate|].
      replace (i + S n)%nat with (S i + n)%nat by lia. exact (H3 n e' E).
  - intros H. destruct (IH _ _ H) as (H1 & H2 & H3).
    assert (Hlater : forall n e', nth_error rs n = Some (Throw e') ->
                                  (time j <= time (i + S n)%nat)%Z).
    { intros n e' E. replace (i + S n)%nat with (S i + n)%nat by lia.
      exact (H3 n e' E). }
    assert (Hshift : (exists n, j = (S i + n)%nat /\
                                nth_error rs n = Some (Throw e)) ->
                     exists n, j = (i + n)%nat /\
                               nth_error (Throw e0 :: rs) n = Some (Throw e)).
    { intros (n & -> & Hn). exists (S n). split; [lia|exact Hn]. }
    destruct best as [[k0 e1]|].
    + destruct (time i <? time k0)%Z eqn:T.
      * apply Z.ltb_lt in T. pose proof (H2 i e0 eq_refl) as Hi.
        split; [|split].
        -- right. destruct H1 as [H1|H1]; [|exact (Hshift H1)].
           injection H1 as <- <-. exists 0%nat.
           split; [lia|reflexivity].
        -- intros k e' E. injection E as <- _. lia.
        -- intros [|n] e' E; [|exact (Hlater n e' E)].
           replace (i + 0)%nat with i by lia. exact Hi.
      * apply Z.ltb_ge in T. pose proof (H2 k0 e1 eq_refl) as Hk.
        split; [|split].
        -- destruct H1 as [H1|H1]; [left; exact H1|right; exact (Hshift H1)].
        -- intros k e' E. injection E as <- _. exact Hk.
        -- intros [|n] e' E; [|exact (Hlater n e' E)].
           replace (i + 0)%nat with i by lia. lia.
    + pose proof (H2 i e0 eq_refl) as Hi. split; [|split].
      * right. destruct H1 as [H1|H1]; [|exact (Hshift H1)].
        injection H1 as <- <-. exists 0%nat. split; [lia|reflexivity].
      * intros k e' E. discriminate.
      * intros [|n] e' E; [|exact (Hlater n e' E)].
        replace (i + 0)%nat with i by lia. exact Hi.
Qed.

(** Every position request is sent, in order, whatever the answers. *)
Lemma start_all_sent (addresses : list string) (h : History) :
  fst (start_all (fetchPositions W) addresses h) =
  h ++ map (fun address =>
              EFetchData (DATA_API_BASE ++ "/positions?user=" ++ address)%string)
           addresses.
Proof.
  revert h. induction addresses as [|a l IH]; intros h; simpl.
  - symmetry. apply app_nil_r.
  - specialize (IH (h ++ [EFetchData
                            (DATA_API_BASE ++ "/positions?user=" ++ a)%string])).
    destruct (start_all (fetchPositions W) l _) as [h2 rs].
    simpl in *. rewrite IH, <- app_assoc. reflexivity.
Qed.

Lemma start_all_answers (addresses : list string) (h : History) :
  Forall2 (fun address r =>
             exists h0, fetchData W h0
                          (DATA_API_BASE ++ "/positions?user=" ++ address)%string
                        = r)
          addresses (snd (start_all (fetchPositions W) addresses h)).
Proof.
  revert h. induction addresses as [|a l IH]; intros h; simpl.
  - constructor.
  - specialize (IH (h ++ [EFetchData
                            (DATA_API_BASE ++ "/positions?user=" ++ a)%string])).
    destruct (start_all (fetchPositions W) l _) as [h2 rs].
    simpl in *. constructor; [eauto|exact IH].
Qed.

(** The fetched responses are the answers for the tracked addresses, one
    for each, in order. *)
Lemma promise_all_answers (addresses : list string)
      (h h' : History) (responses : list (list Position)) :
  promise_all (settled_at W) (fetchPositions W) addresses h
    = (h', Ok responses) ->
  Forall2 (fun address positions =>
             exists h0, fetchData W h0
                          (DATA_API_BASE ++ "/positions?user=" ++ address)%string
                        = Ok positions)
          addresses responses.
Proof.
  unfold promise_all. pose proof (start_all_answers addresses h) as Hall.
  destruct (start_all (fetchPositions W) addresses h) as [h1 rs].
  simpl in Hall.
  destruct (first_rejection (settled_at W h1) 0 rs None) as [[j e]|] eqn:E;
    [discriminate|].
  intros H. injection H as _ <-.
  apply first_rejection_none in E. destruct E as [_ Hrs].
  rewrite Hrs in Hall. clear Hrs.
  revert Hall. generalize (resolved rs). clear rs.
  induction addresses as [|a l IH]; intros values Hall.
  - destruct values; [constructor|inversion Hall].
  - destruct values as [|v values]; [inversion Hall|].
    simpl in Hall. inversion Hall; subst.
    constructor; [assumption|]. apply IH. assumption.
Qed.

(** When a request for a tracked address fails, the run fails with the
    failure that settles first, whatever the place of its address. *)
Lemma promise_all_rejection (addresses : list string) (h h' : History)
      (err : string) :
  promise_all (settled_at W) (fetchPositions W) addresses h
    = (h', Throw err) ->
  let answers := snd (start_all (fetchPositions W) addresses h) in
  h' = fst (start_all (fetchPositions W) addresses h) /\
  exists j, nth_error answers j = Some (Throw err) /\
            forall k e, nth_error answers k = Some (Throw e) ->
                        (settled_at W h' j <= settled_at W h' k)%Z.
Proof.
  unfold promise_all.
  destruct (start_all (fetchPositions W) addresses h) as [h1 rs].
  destruct (first_rejection (settled_at W h1) 0 rs None) as [[j e]|] eqn:E;
    [|discriminate].
  intros H. injection H as <- <-. cbn [fst snd].
  split; [reflexivity|].
  destruct (first_rejection_earliest _ _ _ _ _ _ E)
    as ([H1|(n & -> & Hn)] & _ & H3); [discriminate|].
  exists n. split; [exact Hn|]. intros k e' Hk. exact (H3 k e' Hk).
Qed.

(** [main] runs the reconciliation on what the fetches answer. *)
Lemma main_runs_reconcile (h h1 h2 : History)
      (responses : list (list Position)) (botPositions : list Position) :
  connectDB W h = Ok tt ->
  createClobClient W (h ++ [EConnectDB]) = Ok tt ->
  promise_all (settled_at W) (fetchPositions W) (USER_ADDRESSES W)
              (h ++ [EConnectDB; ECreateClobClient]) = (h1, Ok responses) ->
  fetchPositions W (PROXY_WALLET W) h1 = (h2, Ok botPositions) ->
  main W h = reconcile W responses botPositions h2.
Proof.
  intros Hc Hk Hp Hb. unfold main, bind, call at 1 2.
  rewrite Hc, Hk, <- app_assoc. simpl app. rewrite Hp. cbv beta iota.
  rewrite Hb. reflexivity.
Qed.

(** A run that got its balance hands every stale position to
    [postOrder], closes the connection, and ends with what closing
    answers. *)
Lemma reconcile_attempts_all (responses : list (list Position))
      (botPositions : list Position) (h : History) (my_balance : float) :
  let botOnly := botOnly_of responses botPositions in
  getMyBalance W (h ++ announce (length botOnly)) (PROXY_WALLET W)
    = Ok my_balance ->
  attempted (drop (length h) (fst (reconcile W responses botPositions h)))
    = botOnly /\
  exists done,
    reconcile W responses botPositions h =
    (h ++ done ++ [ECloseConnection], connection_close W (h ++ done)).
Proof.
  intros botOnly Hbal.
  destruct botOnly as [|p l] eqn:E.
  - subst botOnly.
    pose proof (reconcile_empty responses botPositions h E) as Hrun.
    split.
    + rewrite Hrun. simpl. rewrite drop_app_length. reflexivity.
    + exists [ELogger LSuccess NoStalePositions]. exact Hrun.
  - assert (Hne : botOnly_of responses botPositions <> []).
    { subst botOnly. congruence. }
    subst botOnly. rewrite <- E in Hbal.
    destruct (reconcile_nonempty responses botPositions h my_balance Hne Hbal)
      as (new & Hrun & _ & Hatt & _).
    split.
    + rewrite Hrun. cbn [fst]. rewrite drop_app_length.
      rewrite <- E, <- Hatt. unfold attempted, announce.
      rewrite !flat_map_app. simpl. rewrite app_nil_r. reflexivity.
    + eexists. exact Hrun.
Qed.

(** When the setup succeeds and the connection closes, the process exits
    with status 0, whatever [postOrder] answers. *)
Lemma exit_status_zero (h1 h2 : History) (responses : list (list Position))
      (botPositions : list Position) (my_balance : float) :
  connectDB W [] = Ok tt ->
  createClobClient W [EConnectDB] = Ok tt ->
  promise_all (settled_at W) (fetchPositions W) (USER_ADDRESSES W)
              [EConnectDB; ECreateClobClient] = (h1, Ok responses) ->
  fetchPositions W (PROXY_WALLET W) h1 = (h2, Ok botPositions) ->
  getMyBalance W (h2 ++ announce (length (botOnly_of responses botPositions)))
               (PROXY_WALLET W) = Ok my_balance ->
  (forall h, connection_close W h = Ok tt) ->
  exit_status W = 0%Z /\
  attempted (drop (length h2) (fst (main W []))) = botOnly_of responses botPositions.
Proof.
  intros Hc Hk Hp Hb Hbal Hclose. unfold exit_status.
  rewrite (main_runs_reconcile [] h1 h2 responses botPositions Hc Hk Hp Hb).
  destruct (reconcile_attempts_all responses botPositions h2 my_balance Hbal)
    as (Hatt & done & Hrun).
  split; [|exact Hatt]. rewrite Hrun. simpl. rewrite Hclose. reflexivity.
Qed.

End ReconcileRuns.

(** ** Two runs on concrete positions *)

Section ScenarioRuns.

Import Reconcile.

Example main_world_ok :
  main world_ok [] =
  ([EConnectDB; ECreateClobClient;
    EFetchData "https://data-api.polymarket.com/positions?user=0xtrader";
    EFetchData "https://data-api.polymarket.com/positions?user=0xbot";
    ELogger LHeader ReconcileHeader; ELogger LInfo (FoundStale 1);
    EGetMyBalance "0xbot";
    ELogger LInfo (ClosingStale "B" "0xb" (Some 30%float));
    EPostOrder "sell" stale_position None
               (syntheticTrade world_ok 1 1700000000999 stale_position)
               100 0 "reconcile";
    ESleep 250; ECloseConnection], Ok tt).
Proof. vm_compute. reflexivity. Qed.

Example main_world_throw :
  main world_throw [] =
  ([EConnectDB; ECreateClobClient;
    EFetchData "https://data-api.polymarket.com/positions?user=0xtrader";
    EFetchData "https://data-api.polymarket.com/positions?user=0xbot";
    ELogger LHeader ReconcileHeader; ELogger LInfo (FoundStale 1);
    EGetMyBalance "0xbot";
    ELogger LInfo (ClosingStale "B" "0xb" (Some 30%float));
    EPostOrder "sell" stale_position None
               (syntheticTrade world_throw 1 1700000000999 stale_position)
               100 0 "reconcile";
    ELogger LError (FailedToClose "B" "order rejected");
    ECloseConnection], Ok tt).
Proof. vm_compute. reflexivity. Qed.

(** The second of three tasks fails: the third is still attempted, and
    the script exits with status 0. *)
Example second_of_three_fails :
  let W := world_rejecting "m2" in
  let run := reconcile W [[]] [stale_in "m1"; stale_in "m2"; stale_in "m3"] [] in
  attempted (fst run) = [stale_in "m1"; stale_in "m2"; stale_in "m3"] /\
  List.filter (fun e => match e with ELogger LError _ => true | _ => false end)
              (fst run)
    = [ELogger LError (FailedToClose "m2" "order rejected")] /\
  List.filter is_pause (fst run) = [ESleep 250; ESleep 250] /\
  snd run = Ok tt.
Proof. vm_compute. repeat split; reflexivity. Qed.

Example exit_status_world_throw : exit_status world_throw = 0%Z.
Proof. vm_compute. reflexivity. Qed.

(** Two tracked addresses whose requests both fail: both requests are
    sent, and the run fails with the failure that arrived first, which
    is the one of the second address. *)
Example main_world_race :
  main world_race [] =
  ([EConnectDB; ECreateClobClient;
    EFetchData "https://data-api.polymarket.com/positions?user=0xfirst";
    EFetchData "https://data-api.polymarket.com/positions?user=0xsecond"],
   Throw "second address failed").
Proof. vm_compute. reflexivity. Qed.

End ScenarioRuns.

(** ** The reconciliation run: the driver's guarantees *)

Section ReconcileTheorems.

Import Reconcile.

Lemma added_app {A} (m : M A) (h new : History) (r : Result A) :
  m h = (h ++ new, r) -> added m h = new.
Proof.
  intros E. unfold added. rewrite E. simpl. apply drop_app_length.
Qed.

(** Every order of a run sells a stale position through its synthetic
    trade. *)
Lemma reconcile_orders (W : World) (responses : list (list Position))
      (botPositions : list Position) (h : History) :
  Forall (scripted W (botOnly_of responses botPositions))
         (added (reconcile W responses botPositions) h).
Proof.
  destruct (botOnly_of responses botPositions) as [|p l] eqn:E.
  - rewrite (added_app _ _ _ _ (reconcile_empty W _ _ h E)).
    repeat constructor.
  - assert (Hne : botOnly_of responses botPositions <> []) by congruence.
    destruct (getMyBalance W
                (h ++ announce (length (botOnly_of responses botPositions)))
                (PROXY_WALLET W)) as [b|err] eqn:Hbal.
    + destruct (reconcile_nonempty W responses botPositions h b Hne Hbal)
        as (new & Hrun & _ & _ & _ & Hall).
      rewrite (added_app _ _ _ _ Hrun). rewrite E in Hall.
      repeat (apply Forall_app; split); try exact Hall;
        repeat constructor.
    + rewrite (added_app _ _ _ _
                 (reconcile_balance_fails W responses botPositions h err Hne Hbal)).
      repeat constructor.
Qed.

(** C3.  When no bot position is stale, the run logs the success line,
    closes the connection and ends with what closing answers: it looks
    up no balance and submits no order. *)
Theorem C3_nothing_stale_nothing_done (W : World)
        (responses : list (list Position)) (botPositions : list Position)
        (h : History) :
  botOnly_of responses botPositions = [] ->
  reconcile W responses botPositions h =
    (h ++ [ELogger LSuccess NoStalePositions; ECloseConnection],
     connection_close W (h ++ [ELogger LSuccess NoStalePositions])) /\
  List.filter is_balance_lookup (added (reconcile W responses botPositions) h) = [] /\
  List.filter is_order (added (reconcile W responses botPositions) h) = [] /\
  (connection_close W (h ++ [ELogger LSuccess NoStalePositions]) = Ok tt ->
   snd (reconcile W responses botPositions h) = Ok tt).
Proof.
  intros E. pose proof (reconcile_empty W responses botPositions h E) as Hrun.
  rewrite (added_app _ _ _ _ Hrun). rewrite Hrun. simpl. auto.
Qed.

(** A run in which the bot holds nothing. *)
Lemma C3_witness :
  reconcile world_ok [[stale_position]] [] [] =
    ([ELogger LSuccess NoStalePositions; ECloseConnection], Ok tt) /\
  List.filter is_balance_lookup
    (added (reconcile world_ok [[stale_position]] []) []) = [] /\
  List.filter is_order
    (added (reconcile world_ok [[stale_position]] []) []) = [] /\
  (Ok tt = Ok tt -> snd (reconcile world_ok [[stale_position]] [] []) = Ok tt).
Proof.
  apply (C3_nothing_stale_nothing_done world_ok [[stale_position]] [] []).
  vm_compute. reflexivity.
Defined.

(** C2.  A task whose [postOrder] call throws logs the failure under the
    position's label and ends normally.  The loop therefore ends
    normally on every list of stale positions and hands every one of
    them to [postOrder], in order, whatever the calls answer; and a run
    that got its balance attempts every stale position, closes the
    connection, and ends with what closing answers. *)
Theorem C2_failures_do_not_stop_the_loop (W : World) (my_balance : float) :
  (forall pos h err,
     order_answer W my_balance h pos = Throw err ->
     loop_body W my_balance pos h =
     (h ++ [closing_log pos; order_event W my_balance h pos;
            ELogger LError (FailedToClose (label pos) err)], Ok tt)) /\
  (forall l h,
     snd (for_of l (loop_body W my_balance) h) = Ok tt /\
     attempted (added (for_of l (loop_body W my_balance)) h) = l) /\
  (forall responses botPositions h,
     let botOnly := botOnly_of responses botPositions in
     getMyBalance W (h ++ announce (length botOnly)) (PROXY_WALLET W)
       = Ok my_balance ->
     attempted (added (reconcile W responses botPositions) h) = botOnly /\
     exists done,
       reconcile W responses botPositions h =
       (h ++ done ++ [ECloseConnection], connection_close W (h ++ done))).
Proof.
  split; [|split].
  - intros pos h err Herr. rewrite loop_body_run.
    unfold task_end. rewrite Herr. reflexivity.
  - intros l h.
    destruct (for_of_run W my_balance l h) as (new & Hrun & Hatt & _).
    rewrite (added_app _ _ _ _ Hrun). rewrite Hrun. auto.
  - intros responses botPositions h botOnly Hbal.
    exact (reconcile_attempts_all W responses botPositions h my_balance Hbal).
Qed.

End ReconcileTheorems.

(** ** The pause between tasks *)

Section InterTaskPause.

Import Reconcile.

(** When every order returns, the loop pauses once for each task. *)
Lemma for_of_pauses (W : World) (my_balance : float) (l : list Position)
      (h : History) :
  (forall h' pos, In pos l -> order_answer W my_balance h' pos = Ok tt) ->
  List.filter is_pause (added (for_of l (loop_body W my_balance)) h)
  = repeat (ESleep 250) (length l).
Proof.
  revert h. induction l as [|pos l IH]; intros h Hok.
  - unfold added. simpl. rewrite drop_all. reflexivity.
  - destruct (for_of_run W my_balance (pos :: l) h) as (new & Hrun & _).
    rewrite (added_app _ _ _ _ Hrun).
    simpl in Hrun. unfold bind in Hrun. rewrite loop_body_run in Hrun.
    destruct (for_of_run W my_balance l
                (h ++ [closing_log pos; order_event W my_balance h pos;
                       task_end W my_balance h pos]))
      as (new' & Hrun' & _).
    specialize (IH (h ++ [closing_log pos; order_event W my_balance h pos;
                          task_end W my_balance h pos])
                   (fun h' p Hp => Hok h' p (or_intror Hp))).
    rewrite (added_app _ _ _ _ Hrun') in IH.
    rewrite Hrun' in Hrun. rewrite <- app_assoc in Hrun.
    injection Hrun as Hnew. apply app_inv_head in Hnew. subst new.
    unfold task_end. rewrite (Hok h pos (or_introl eq_refl)).
    simpl. rewrite IH. reflexivity.
Qed.

(** C8.  The pause does not follow every task.  In every run, a task
    whose [postOrder] call throws ends with the logged failure and
    without a pause, while a task whose call returns ends with the pause
    of 250 ms: the pause is the last statement of the [try] block, and
    the [catch] block has none.  With three stale positions whose orders
    all throw, the three orders are sent one after the other without any
    pause, and the run ends normally; the same three orders pause three
    times when they return. *)
Theorem C8_failed_orders_are_not_paced :
  (forall W my_balance pos h err,
     order_answer W my_balance h pos = Throw err ->
     loop_body W my_balance pos h =
     (h ++ [closing_log pos; order_event W my_balance h pos;
            ELogger LError (FailedToClose (label pos) err)], Ok tt) /\
     List.filter is_pause (added (loop_body W my_balance pos) h) = []) /\
  (forall W my_balance pos h u,
     order_answer W my_balance h pos = Ok u ->
     loop_body W my_balance pos h =
     (h ++ [closing_log pos; order_event W my_balance h pos; ESleep 250],
      Ok tt) /\
     List.filter is_pause (added (loop_body W my_balance pos) h)
     = [ESleep 250]) /\
  (let stale := [stale_in "m1"; stale_in "m2"; stale_in "m3"] in
   let failing := reconcile world_throw [[]] stale [] in
   let returning := reconcile world_ok [[]] stale [] in
   attempted (fst failing) = stale /\
   List.filter is_pause (fst failing) = [] /\
   snd failing = Ok tt /\
   attempted (fst returning) = stale /\
   List.filter is_pause (fst returning)
   = [ESleep 250; ESleep 250; ESleep 250] /\
   snd returning = Ok tt).
Proof.
  split; [|split].
  - intros W my_balance pos h err Herr.
    pose proof (loop_body_run W my_balance pos h) as Hrun.
    unfold task_end in Hrun. rewrite Herr in Hrun.
    split; [exact Hrun|].
    rewrite (added_app _ _ _ _ Hrun). reflexivity.
  - intros W my_balance pos h u Hu.
    pose proof (loop_body_run W my_balance pos h) as Hrun.
    unfold task_end in Hrun. rewrite Hu in Hrun.
    split; [exact Hrun|].
    rewrite (added_app _ _ _ _ Hrun). reflexivity.
  - vm_compute. repeat split; reflexivity.
Qed.

End InterTaskPause.

(** ** The synthetic trade *)

Section SyntheticTrade.

Import Reconcile.

Lemma absent_or_zero_falsy (v : JS.num) :
  absent_or_zero v = true -> JS.truthy v = false.
Proof.
  destruct v as [x|]; simpl; [|reflexivity].
  intros Hx. apply truthy_float_false. left. exact Hx.
Qed.

Lemma price_no_signal (W : World) (oid now : Z) (pos : Position) :
  absent_or_zero (curPrice pos) = true ->
  absent_or_zero (avgPrice pos) = true ->
  Activity.price (syntheticTrade W oid now pos) = 0.5%float /\
  Activity.usdcSize (syntheticTrade W oid now pos)
    = (JS.or_lit (size pos) 0 * 0)%float.
Proof.
  intros Hc Ha. simpl. unfold JS.or.
  rewrite (absent_or_zero_falsy _ Hc).
  pose proof (absent_or_zero_falsy _ Ha) as Hf.
  destruct (avgPrice pos) as [y|]; simpl in *; [rewrite Hf|]; auto.
Qed.

(** C1.  Every order of a run is for a stale position, the open bot
    positions no trader holds; it is a sale whose synthetic trade has
    side SELL and the position's whole size, and whose price is the
    position's current price when that is a non-zero number, else its
    average entry price when that is a non-zero number, else 0.5. *)
Theorem C1_synthesized_exit (W : World) (responses : list (list Position))
        (botPositions : list Position) (h : History)
        (condition : string) (pos : Position) (user_position : option Position)
        (trade : Activity.t) (my_balance user_balance : float)
        (userAddress : string) :
  In (EPostOrder condition pos user_position trade my_balance user_balance
                 userAddress)
     (added (reconcile W responses botPositions) h) ->
  In pos (botOnly_of responses botPositions) /\
  condition = "sell" /\
  Activity.side trade = "SELL" /\
  Activity.size trade = size pos /\
  Activity.myBoughtSize trade = size pos /\
  (forall x, curPrice pos = Some x ->
             PrimFloat.is_nan x = false -> PrimFloat.eqb x 0 = false ->
             Activity.price trade = x) /\
  (absent_or_zero (curPrice pos) = true ->
   forall y, avgPrice pos = Some y ->
             PrimFloat.is_nan y = false -> PrimFloat.eqb y 0 = false ->
             Activity.price trade = y) /\
  (absent_or_zero (curPrice pos) = true ->
   absent_or_zero (avgPrice pos) = true ->
   Activity.price trade = 0.5%float).
Proof.
  intros Hin.
  pose proof (reconcile_orders W responses botPositions h) as Hall.
  rewrite List.Forall_forall in Hall. specialize (Hall _ Hin). simpl in Hall.
  destruct Hall as (Hpos & -> & _ & _ & _ & oid & now & ->).
  split; [exact Hpos|]. repeat (split; [reflexivity|]).
  split; [|split].
  - intros x Hx Hnan Hz. simpl. unfold JS.or. rewrite Hx. simpl.
    rewrite (nonzero_number_truthy x Hnan Hz). simpl.
    rewrite (nonzero_number_truthy x Hnan Hz). reflexivity.
  - intros Hc y Hy Hnan Hz. simpl. unfold JS.or.
    rewrite (absent_or_zero_falsy _ Hc), Hy. simpl.
    rewrite (nonzero_number_truthy y Hnan Hz). reflexivity.
  - intros Hc Ha. apply (price_no_signal W oid now pos Hc Ha).
Qed.

(** The order of the run in which "B|Down" is stale. *)
Lemma C1_witness :
  In stale_position (botOnly_of [[]] [stale_position]) /\
  "sell" = "sell" /\
  Activity.side (syntheticTrade world_ok 1 1700000000999 stale_position)
    = "SELL" /\
  Activity.size (syntheticTrade world_ok 1 1700000000999 stale_position)
    = size stale_position /\
  Activity.myBoughtSize (syntheticTrade world_ok 1 1700000000999 stale_position)
    = size stale_position /\
  (forall x, curPrice stale_position = Some x ->
             PrimFloat.is_nan x = false -> PrimFloat.eqb x 0 = false ->
             Activity.price (syntheticTrade world_ok 1 1700000000999 stale_position)
             = x) /\
  (absent_or_zero (curPrice stale_position) = true ->
   forall y, avgPrice stale_position = Some y ->
             PrimFloat.is_nan y = false -> PrimFloat.eqb y 0 = false ->
             Activity.price (syntheticTrade world_ok 1 1700000000999 stale_position)
             = y) /\
  (absent_or_zero (curPrice stale_position) = true ->
   absent_or_zero (avgPrice stale_position) = true ->
   Activity.price (syntheticTrade world_ok 1 1700000000999 stale_position)
   = 0.5%float).
Proof.
  apply (C1_synthesized_exit world_ok [[]] [stale_position] []
           "sell" stale_position None
           (syntheticTrade world_ok 1 1700000000999 stale_position)
           100 0 "reconcile").
  vm_compute. do 4 right. left. reflexivity.
Defined.

End SyntheticTrade.

(** ** Which positions are stale *)

Section StalePositions.

Import Reconcile.

Lemma elem_of_fold_conditions (c : string) (l : list Position)
      (acc : gset string) :
  c ∈ fold_left (fun acc' p => acc' ∪ {[ conditionId p ]}) l acc <->
  c ∈ acc \/ exists q, In q l /\ conditionId q = c.
Proof.
  revert acc. induction l as [|p l IH]; intros acc; simpl.
  - split; [auto|]. intros [H|(q & [] & _)]. exact H.
  - rewrite IH, elem_of_union, elem_of_singleton. split.
    + intros [[H|H]|(q & Hq & Hc)]; eauto.
    + intros [H|(q & [<-|Hq] & Hc)]; eauto.
Qed.

Lemma elem_of_fold_responses (c : string) (rs : list (list Position))
      (acc : gset string) :
  c ∈ fold_left
        (fun acc positions =>
           fold_left (fun acc' p => acc' ∪ {[ conditionId p ]})
                     (List.filter isOpen positions) acc) rs acc <->
  c ∈ acc \/
  exists positions q, In positions rs /\ In q positions /\
                      isOpen q = true /\ conditionId q = c.
Proof.
  revert acc. induction rs as [|r rs IH]; intros acc; simpl.
  - split; [auto|]. intros [H|(r & q & [] & _)]. exact H.
  - rewrite IH, elem_of_fold_conditions. split.
    + intros [[H|(q & Hq & Hc)]|(r' & q & Hr & Hq)].
      * auto.
      * apply filter_In in Hq. destruct Hq as [Hq Ho].
        right. exists r, q. auto.
      * right. exists r', q. tauto.
    + intros [H|(r' & q & [<-|Hr] & Hq & Ho & Hc)].
      * auto.
      * left. right. exists q. split; [|exact Hc].
        apply filter_In. auto.
      * right. exists r', q. auto.
Qed.

(** [traderOpenConditions] holds the conditions of the open positions of
    all the responses, and nothing else. *)
Lemma elem_of_openConditions (c : string) (rs : list (list Position)) :
  c ∈ openConditions rs <->
  exists positions q, In positions rs /\ In q positions /\
                      isOpen q = true /\ conditionId q = c.
Proof.
  unfold openConditions. rewrite elem_of_fold_responses. split.
  - intros [H|H]; [|exact H]. exfalso. exact (not_elem_of_empty _ H).
  - auto.
Qed.

(** A stale position is an open bot position whose condition no open
    position of any response has. *)
Lemma botOnly_of_spec (rs : list (list Position)) (bots : list Position)
      (p : Position) :
  In p (botOnly_of rs bots) <->
  In p bots /\ isOpen p = true /\
  forall positions q, In positions rs -> In q positions ->
                      isOpen q = true -> conditionId q <> conditionId p.
Proof.
  unfold botOnly_of, has. rewrite !filter_In, negb_true_iff,
    bool_decide_eq_false, elem_of_openConditions.
  split.
  - intros [[Hb Ho] Hn]. repeat split; auto.
    intros r q Hr Hq Hoq Hc. apply Hn. exists r, q. auto.
  - intros (Hb & Ho & Hn). repeat split; auto.
    intros (r & q & Hr & Hq & Hoq & Hc). exact (Hn r q Hr Hq Hoq Hc).
Qed.

(** C9.  An order of a run is for an open bot position whose condition
    is the condition of no open position in any tracked trader's
    response; and when a trader holds a condition open, no order of the
    run is for a position of that condition. *)
Theorem C9_only_conditions_no_trader_holds (W : World)
        (responses : list (list Position)) (botPositions : list Position)
        (h : History) :
  (forall condition pos user_position trade my_balance user_balance
          userAddress,
     In (EPostOrder condition pos user_position trade my_balance
                    user_balance userAddress)
        (added (reconcile W responses botPositions) h) ->
     In pos botPositions /\ isOpen pos = true /\
     (conditionId pos ∉ openConditions responses) /\
     forall positions q, In positions responses -> In q positions ->
                         isOpen q = true ->
                         conditionId q <> conditionId pos) /\
  (forall positions q, In positions responses -> In q positions ->
                       isOpen q = true ->
     forall pos, conditionId pos = conditionId q ->
                 ~ In pos (attempted (added (reconcile W responses botPositions) h))).
Proof.
  assert (Horders :
    forall condition pos user_position trade my_balance user_balance
           userAddress,
      In (EPostOrder condition pos user_position trade my_balance
                     user_balance userAddress)
         (added (reconcile W responses botPositions) h) ->
      In pos (botOnly_of responses botPositions)).
  { intros condition pos user_position trade my_balance user_balance
           userAddress Hin.
    pose proof (reconcile_orders W responses botPositions h) as Hall.
    rewrite List.Forall_forall in Hall. specialize (Hall _ Hin).
    simpl in Hall. tauto. }
  split.
  - intros condition pos user_position trade my_balance user_balance
           userAddress Hin.
    apply Horders, botOnly_of_spec in Hin.
    destruct Hin as (Hb & Ho & Hn). repeat split; auto.
    rewrite elem_of_openConditions.
    intros (r & q & Hr & Hq & Hoq & Hc). exact (Hn r q Hr Hq Hoq Hc).
  - intros positions q Hr Hq Ho pos Hc Hin.
    unfold attempted in Hin. apply in_flat_map in Hin.
    destruct Hin as (e & He & Hin).
    destruct e; try (destruct Hin; fail).
    destruct Hin as [->|[]].
    apply Horders, botOnly_of_spec in He.
    destruct He as (_ & _ & Hn). exact (Hn positions q Hr Hq Ho (eq_sym Hc)).
Qed.

End StalePositions.

(** ** The notional of the synthetic trade *)

Section SyntheticNotional.

Import Reconcile.

(** C10, as the code has it.  The [usdcSize] of a synthetic trade is the
    size, or 0, times the current price, else the average entry price,
    else 0.  When both prices are absent or zero the price is 0.5 and
    [usdcSize] is the size, or 0, times 0: a zero when the size is absent
    or finite.  It then differs from size times price for every finite
    size above zero whose half is not rounded to zero. *)
Theorem C10_notional_without_price (W : World) (oid now : Z) (pos : Position) :
  let trade := syntheticTrade W oid now pos in
  Activity.usdcSize trade =
    (JS.or_lit (size pos) 0
     * JS.or_lit (JS.or (curPrice pos) (avgPrice pos)) 0)%float /\
  (absent_or_zero (curPrice pos) = true ->
   absent_or_zero (avgPrice pos) = true ->
   Activity.price trade = 0.5%float /\
   Activity.usdcSize trade = (JS.or_lit (size pos) 0 * 0)%float /\
   (absent_or_finite (size pos) = true ->
    PrimFloat.is_zero (Activity.usdcSize trade) = true) /\
   (forall s, size pos = Some s ->
              JS.gt s 0 = true -> PrimFloat.is_infinity s = false ->
              PrimFloat.is_zero (s * 0.5)%float = false ->
              PrimFloat.eqb (Activity.usdcSize trade)
                            (s * Activity.price trade)%float = false)).
Proof.
  intros trade. split; [reflexivity|].
  intros Hc Ha.
  destruct (price_no_signal W oid now pos Hc Ha) as [Hprice Husdc].
  fold trade in Hprice, Husdc.
  split; [exact Hprice|]. split; [exact Husdc|]. split.
  - intros Hfin. rewrite Husdc.
    destruct (size pos) as [s|]; simpl in *; [|reflexivity].
    apply andb_true_iff in Hfin. destruct Hfin as [Hnan Hinf].
    apply negb_true_iff in Hnan, Hinf.
    destruct (JS.truthy_float s); [|reflexivity].
    apply mul_zero_r; assumption.
  - intros s Hs Hgt Hinf Hhalf. rewrite Husdc, Hprice, Hs. simpl.
    pose proof (gt_zero_truthy s Hgt) as Ht. rewrite Ht.
    apply zero_neq_nonzero; [|exact Hhalf].
    apply mul_zero_r; [|exact Hinf].
    unfold JS.truthy_float in Ht. apply negb_true_iff, orb_false_iff in Ht.
    tauto.
Qed.

(** Two synthetic trades without a price.  For the smallest size above
    zero, size times price is rounded to zero and equals [usdcSize].
    For an infinite size, [usdcSize] is not a zero but [NaN]. *)
Lemma C10_notional_edge_sizes :
  (let trade := syntheticTrade world_ok 1 0 dust_position in
   absent_or_zero (curPrice dust_position) = true /\
   absent_or_zero (avgPrice dust_position) = true /\
   Activity.price trade = 0.5%float /\
   JS.gt_num (size dust_position) 0 = true /\
   PrimFloat.eqb (Activity.usdcSize trade)
                 (JS.to_number (size dust_position) * Activity.price trade)%float
     = true) /\
  (let trade := syntheticTrade world_ok 1 0 huge_position in
   absent_or_zero (curPrice huge_position) = true /\
   absent_or_zero (avgPrice huge_position) = true /\
   Activity.price trade = 0.5%float /\
   PrimFloat.is_zero (Activity.usdcSize trade) = false /\
   PrimFloat.is_nan (Activity.usdcSize trade) = true).
Proof. vm_compute. repeat split; reflexivity. Qed.

End SyntheticNotional.

(** ** The retry loop when the action is to skip *)

Section SkipAction.

Import Guard.

Lemma run_aborted (cfg : SlippageConfig) (referencePrice : float)
      (side : Side) (quote : nat -> Quote) (submit : option string)
      (n : nat) (reason : Reason) :
  run cfg referencePrice side quote submit n (Aborted reason)
  = (Aborted reason, []).
Proof.
  induction n as [|n IH]; simpl; [reflexivity|]. rewrite IH. reflexivity.
Qed.

Lemma guard_skip (cfg : SlippageConfig) (referencePrice : float)
      (side : Side) (q : Quote) (attempt : nat) :
  action cfg = skip ->
  toleranceViolated cfg referencePrice side q || depthViolated cfg side q
    = true ->
  SlippageGuard cfg referencePrice side q attempt =
  Abort (if toleranceViolated cfg referencePrice side q
         then ToleranceViolated else DepthViolated).
Proof.
  intros Hskip Hviol. unfold SlippageGuard. rewrite Hviol, Hskip.
  reflexivity.
Qed.

Lemma run_terminal (cfg : SlippageConfig) (referencePrice : float)
      (side : Side) (quote : nat -> Quote) (submit : option string)
      (n : nat) (s : State) :
  terminal s = true ->
  run cfg referencePrice side quote submit n s = (s, []).
Proof.
  intros Hs. induction n as [|n IH]; simpl; [reflexivity|].
  destruct s; try discriminate; simpl; simpl in IH; rewrite IH; reflexivity.
Qed.

(** The loop always stops: within its budget of transitions it reaches
    [Aborted], [Succeeded] or [Failed]. *)
Lemma run_reaches_terminal (cfg : SlippageConfig) (referencePrice : float)
      (side : Side) (quote : nat -> Quote) (submit : option string)
      (k attempt n : nat) :
  (maxRetries cfg - attempt <= k)%nat -> (2 * k + 3 <= n)%nat ->
  terminal (fst (run cfg referencePrice side quote submit n (Checking attempt)))
  = true.
Proof.
  revert attempt n. induction k as [|k IH]; intros attempt n Hk Hn.
  - destruct n as [|[|n]]; try lia. cbn [run step].
    unfold SlippageGuard.
    destruct (negb _); cbn [run step].
    + destruct submit; rewrite run_terminal by reflexivity; reflexivity.
    + destruct (action cfg).
      * replace (maxRetries cfg <=? attempt)%nat with true
          by (symmetry; apply Nat.leb_le; lia).
        cbn [run step]. rewrite run_terminal by reflexivity. reflexivity.
      * cbn [run step]. rewrite run_terminal by reflexivity. reflexivity.
  - destruct n as [|[|n]]; try lia. cbn [run step].
    unfold SlippageGuard.
    destruct (negb _); cbn [run step].
    + destruct submit; rewrite run_terminal by reflexivity; reflexivity.
    + destruct (action cfg).
      * destruct (maxRetries cfg <=? attempt)%nat eqn:E; cbn [run step].
        -- rewrite run_terminal by reflexivity. reflexivity.
        -- apply Nat.leb_gt in E.
           specialize (IH (S attempt) n ltac:(lia) ltac:(lia)).
           destruct (run cfg referencePrice side quote submit n
                         (Checking (S attempt))) as [s2 evs2].
           exact IH.
      * cbn [run step]. rewrite run_terminal by reflexivity. reflexivity.
Qed.

Lemma ExecutionRetryLoop_stops (cfg : SlippageConfig) (referencePrice : float)
      (side : Side) (quote : nat -> Quote) (submit : option string) :
  terminal (fst (ExecutionRetryLoop cfg referencePrice side quote submit)) = true.
Proof.
  unfold ExecutionRetryLoop.
  apply (run_reaches_terminal cfg referencePrice side quote submit
           (maxRetries cfg)); lia.
Qed.

(** C4.  With the action set to skip, when the first quote violates the
    tolerance or the depth, the loop fetches that one quote, decides to
    abort and stops in [Aborted]: one abort, no retry, no pause, no
    order submitted. *)
Theorem C4_skip_aborts_at_once (cfg : SlippageConfig) (referencePrice : float)
        (side : Side) (quote : nat -> Quote) (submit : option string) :
  action cfg = skip ->
  toleranceViolated cfg referencePrice side (quote 0%nat)
    || depthViolated cfg side (quote 0%nat) = true ->
  let events := snd (ExecutionRetryLoop cfg referencePrice side quote submit) in
  exists reason,
    ExecutionRetryLoop cfg referencePrice side quote submit
      = (Aborted reason, [FetchQuote; Decide (Abort reason)]) /\
    length (List.filter is_abort events) = 1%nat /\
    List.filter is_retry events = [] /\
    List.filter is_wait events = [] /\
    List.filter is_submit events = [].
Proof.
  intros Hskip Hviol events. subst events. unfold ExecutionRetryLoop.
  replace (2 * maxRetries cfg + 3)%nat with (S (2 * maxRetries cfg + 2))%nat
    by lia.
  cbn [run step].
  rewrite (guard_skip cfg referencePrice side (quote 0%nat) 0 Hskip Hviol).
  rewrite run_aborted. simpl. eexists. repeat split.
Qed.

Lemma C4_witness :
  exists reason,
    ExecutionRetryLoop skip_config 0.5 SELL (fun _ => fallen_quote) None
      = (Aborted reason, [FetchQuote; Decide (Abort reason)]) /\
    length (List.filter is_abort
              (snd (ExecutionRetryLoop skip_config 0.5 SELL
                      (fun _ => fallen_quote) None))) = 1%nat /\
    List.filter is_retry
      (snd (ExecutionRetryLoop skip_config 0.5 SELL
              (fun _ => fallen_quote) None)) = [] /\
    List.filter is_wait
      (snd (ExecutionRetryLoop skip_config 0.5 SELL
              (fun _ => fallen_quote) None)) = [] /\
    List.filter is_submit
      (snd (ExecutionRetryLoop skip_config 0.5 SELL
              (fun _ => fallen_quote) None)) = [].
Proof.
  apply (C4_skip_aborts_at_once skip_config 0.5 SELL (fun _ => fallen_quote) None);
    vm_compute; reflexivity.
Defined.

End SkipAction.


(** ** The tabs of a positions panel *)

Section PositionTabs.

Import Panels.

Lemma SFcompare_defined (x y : spec_float) :
  SFeqb x x = true -> SFeqb y y = true -> exists c, SFcompare x y = Some c.
Proof.
  unfold SFeqb.
  destruct x as [sx|sx| |sx mx ex], y as [sy|sy| |sy my ey]; simpl;
    try discriminate; intros _ _; eauto.
Qed.

(** On two numbers, [x <= y] is the negation of [x > y]. *)
Lemma leb_negb_gt (x y : float) :
  PrimFloat.is_nan x = false -> PrimFloat.is_nan y = false ->
  PrimFloat.leb x y = negb (JS.gt x y).
Proof.
  unfold PrimFloat.is_nan, JS.gt.
  rewrite !negb_false_iff, !FloatAxioms.eqb_spec, leb_spec, ltb_spec.
  intros Hx Hy. unfold SFleb, SFltb.
  rewrite (SFcompare_swap (Prim2SF x) (Prim2SF y)).
  destruct (SFcompare_defined _ _ Hx Hy) as [c ->].
  destruct c; reflexivity.
Qed.

(** [v || 0] is never [NaN]. *)
Lemma or_lit_zero_number (v : JS.num) :
  PrimFloat.is_nan (JS.or_lit v 0) = false.
Proof.
  destruct v as [x|]; simpl; [|reflexivity].
  destruct (JS.truthy_float x) eqn:E; [|reflexivity].
  unfold JS.truthy_float in E.
  apply negb_true_iff, orb_false_iff in E. tauto.
Qed.

Lemma isClosed_negb_isOpen (p : Position) : isClosed p = negb (isOpen p).
Proof.
  unfold isClosed, isOpen. apply leb_negb_gt.
  - apply or_lit_zero_number.
  - reflexivity.
Qed.

(** The open tab and the closed tab split the positions of a panel: the
    closed tab lists the positions that are not open, every position is
    in exactly one of the two lists, and nothing is lost or repeated. *)
Theorem tabs_split_positions (activeTab : string) (positions : list Position) :
  let panel := renderPositions activeTab positions in
  closedPositions panel = List.filter (fun p => negb (isOpen p)) positions /\
  length (openPositions panel) + length (closedPositions panel)
    = length positions /\
  (forall p, In p positions ->
     (In p (openPositions panel) /\ ~ In p (closedPositions panel)) \/
     (In p (closedPositions panel) /\ ~ In p (openPositions panel))) /\
  (forall p, In p (displayPositions panel) -> In p positions).
Proof.
  intros panel. subst panel. unfold renderPositions. simpl.
  assert (E : List.filter isClosed positions
              = List.filter (fun p => negb (isOpen p)) positions).
  { apply filter_ext. intros p. apply isClosed_negb_isOpen. }
  rewrite E. split; [reflexivity|]. split; [apply filter_length|]. split.
  - intros p Hp. rewrite !filter_In.
    destruct (isOpen p) eqn:Ho; simpl.
    + left. split; [auto|]. intros [_ H]. discriminate.
    + right. split; [auto|]. intros [_ H]. discriminate.
  - intros p. destruct (String.eqb activeTab "open"); rewrite filter_In; tauto.
Qed.

End PositionTabs.

(** ** The mismatch panel and the reconciliation script *)

Section MismatchPanel.

Import Panels Reconcile.

Lemma elem_of_openConditionSet (c : string) (positions : list Position) :
  c ∈ openConditionSet positions <->
  exists q, In q positions /\ isOpen q = true /\ conditionId q = c.
Proof.
  unfold openConditionSet. rewrite elem_of_list_to_set, list_elem_of_In, in_map_iff.
  split.
  - intros (q & Hc & Hq). apply filter_In in Hq. exists q. tauto.
  - intros (q & Hq & Ho & Hc). exists q. rewrite filter_In. tauto.
Qed.

(** The set of the dashboard is the set the script builds from one
    response. *)
Lemma openConditions_single (positions : list Position) :
  openConditions [positions] = openConditionSet positions.
Proof.
  apply set_eq. intros c.
  rewrite elem_of_openConditions, elem_of_openConditionSet. split.
  - intros (r & q & [<-|[]] & Hq & Ho & Hc). eauto.
  - intros (q & Hq & Ho & Hc). exists positions, q. simpl. auto.
Qed.

Lemma renderMismatches_botOnly_of (traderPositions botPositions : list Position) :
  renderMismatches traderPositions botPositions =
  {| botMissing := botOnly_of [botPositions] traderPositions;
     botExtra := botOnly_of [traderPositions] botPositions |}.
Proof.
  unfold renderMismatches, botOnly_of. rewrite !openConditions_single.
  reflexivity.
Qed.

(** The list "Bot Holding (Trader Exited)" of the dashboard is the list of
    positions the reconciliation script sells when it tracks that one
    trader: the same positions in the same order, both as lists and as
    the orders of a run that got its balance.  The list "Bot Missing" is
    the same computation with the two sides exchanged. *)
Theorem dashboard_stale_list_is_what_reconcile_sells
        (traderPositions botPositions : list Position) :
  let panel := renderMismatches traderPositions botPositions in
  botExtra panel = botOnly_of [traderPositions] botPositions /\
  botMissing panel = botOnly_of [botPositions] traderPositions /\
  (forall W h my_balance,
     getMyBalance W (h ++ announce (length (botExtra panel))) (PROXY_WALLET W)
       = Ok my_balance ->
     attempted (added (reconcile W [traderPositions] botPositions) h)
       = botExtra panel).
Proof.
  intros panel. subst panel. rewrite renderMismatches_botOnly_of. simpl.
  split; [reflexivity|]. split; [reflexivity|].
  intros W h my_balance Hbal.
  apply (reconcile_attempts_all W [traderPositions] botPositions h my_balance Hbal).
Qed.

(** No condition is on both lists of the mismatch panel, and every listed
    position is an open position of its side. *)
Theorem mismatch_lists_share_no_condition
        (traderPositions botPositions : list Position) :
  let panel := renderMismatches traderPositions botPositions in
  (forall p, In p (botMissing panel) ->
             In p traderPositions /\ isOpen p = true) /\
  (forall q, In q (botExtra panel) ->
             In q botPositions /\ isOpen q = true) /\
  (forall p q, In p (botMissing panel) -> In q (botExtra panel) ->
               conditionId p <> conditionId q).
Proof.
  intros panel. subst panel. unfold renderMismatches, has. simpl.
  split; [|split].
  - intros p Hp. apply filter_In in Hp. destruct Hp as [Hp _].
    apply filter_In in Hp. exact Hp.
  - intros q Hq. apply filter_In in Hq. destruct Hq as [Hq _].
    apply filter_In in Hq. exact Hq.
  - intros p q Hp Hq Hc.
    apply filter_In in Hp, Hq. destruct Hp as [_ Hp], Hq as [Hq _].
    apply filter_In in Hq. destruct Hq as [Hq Ho].
    apply negb_true_iff, bool_decide_eq_false in Hp. apply Hp.
    apply elem_of_openConditionSet. exists q. auto.
Qed.

End MismatchPanel.

(** ** The match rate *)

Section MatchRate.

Import Builtins Panels Dashboard.

Lemma has_keys_has_key (k : string) (ps : list Position) :
  Reconcile.has (list_to_set (map getKey ps)) k = has_key k ps.
Proof.
  unfold Reconcile.has.
  destruct (has_key k ps) eqn:E.
  - apply bool_decide_eq_true. rewrite elem_of_list_to_set, list_elem_of_In, in_map_iff.
    unfold has_key in E. apply existsb_exists in E.
    destruct E as (p & Hp & Hk). exists p. split; [|exact Hp].
    apply String.eqb_eq. exact Hk.
  - apply bool_decide_eq_false. rewrite elem_of_list_to_set, list_elem_of_In, in_map_iff.
    intros (p & Hk & Hp).
    exact (proj1 (has_key_false k ps) E p Hp Hk).
Qed.

(** The counter counts the open trader positions whose key an open bot
    position has. *)
Lemma matches_of_filter (traderOpen botOpen : list Position) :
  matches_of traderOpen botOpen =
  length (List.filter (fun p => has_key (getKey p) botOpen) traderOpen).
Proof.
  unfold matches_of.
  assert (G : forall l n,
             fold_left (fun matches p =>
                          if Reconcile.has (list_to_set (map getKey botOpen))
                                           (getKey p)
                          then S matches else matches) l n
             = (n + length (List.filter (fun p => has_key (getKey p) botOpen) l))%nat).
  { induction l as [|p l IH]; intros n; simpl; [lia|].
    rewrite IH, has_keys_has_key.
    destruct (has_key (getKey p) botOpen); simpl; lia. }
  rewrite G. reflexivity.
Qed.

Lemma filter_length_zero {A} (f : A -> bool) (l : list A) :
  length (List.filter f l) = 0%nat <-> forall x, In x l -> f x = false.
Proof.
  induction l as [|a l IH]; simpl.
  - split; [intros _ x []|reflexivity].
  - destruct (f a) eqn:E; simpl.
    + split; [discriminate|]. intros Hall.
      specialize (Hall a (or_introl eq_refl)). congruence.
    + rewrite IH. split.
      * intros Hall x [<-|Hx]; auto.
      * intros Hall x Hx. apply Hall. auto.
Qed.

Lemma filter_length_all {A} (f : A -> bool) (l : list A) :
  length (List.filter f l) = length l <-> forall x, In x l -> f x = true.
Proof.
  induction l as [|a l IH]; simpl.
  - split; [intros _ x []|reflexivity].
  - destruct (f a) eqn:E; simpl.
    + split.
      * intros Hlen x [<-|Hx]; [exact E|]. apply IH; [lia|exact Hx].
      * intros Hall. f_equal. apply IH. intros x Hx. apply Hall. auto.
    + pose proof (filter_length_le f l) as Hle. split; [lia|].
      intros Hall. specialize (Hall a (or_introl eq_refl)). congruence.
Qed.

(** The match rate and the paired view count the same thing: the open
    trader positions are those the rate counts as matched and those the
    paired view lists under "Trader Only". *)
Theorem match_count_agrees_with_paired_view (traderPositions botPositions
                                               : list Position) :
  let traderOpen := List.filter isOpen traderPositions in
  let botOpen := List.filter isOpen botPositions in
  let paired := renderPairedPositions traderPositions botPositions in
  (matches_of traderOpen botOpen + length (traderOnly paired)
   = length traderOpen)%nat /\
  (matches_of traderOpen botOpen = 0%nat <-> traderOnly paired = traderOpen) /\
  (matches_of traderOpen botOpen = length traderOpen <-> traderOnly paired = []).
Proof.
  intros traderOpen botOpen paired. subst paired.
  unfold renderPairedPositions. simpl. fold traderOpen botOpen.
  rewrite matches_of_filter.
  assert (E : List.filter (absent_from (byKey botOpen)) traderOpen =
              List.filter (fun p => negb (has_key (getKey p) botOpen)) traderOpen).
  { apply filter_ext. intros p. apply absent_from_byKey. }
  rewrite E.
  pose proof (filter_length (fun p => has_key (getKey p) botOpen) traderOpen) as L.
  cbv beta in L.
  split; [exact L|]. split; split; intros H.
  - apply filter_all. intros p Hp.
    rewrite (proj1 (filter_length_zero _ _) H p Hp). reflexivity.
  - rewrite H in L. lia.
  - apply length_zero_iff_nil. lia.
  - rewrite H in L. simpl in L. lia.
Qed.

Lemma rate_table :
  forallb (fun len => forallb (fun m => rate_ok m len) (seq 0 (S len)))
          (seq 1 POSITIONS_LIMIT) = true.
Proof. vm_compute. reflexivity. Qed.

Lemma rate_ok_bounded (matches len : nat) :
  (1 <= len <= POSITIONS_LIMIT)%nat -> (matches <= len)%nat ->
  rate_ok matches len = true.
Proof.
  intros Hlen Hm. pose proof rate_table as T.
  rewrite forallb_forall in T.
  specialize (T len). rewrite in_seq in T. specialize (T ltac:(lia)).
  rewrite forallb_forall in T. apply T. rewrite in_seq. lia.
Qed.

(** With at most [POSITIONS_LIMIT] open trader positions, the match rate
    is a whole number from 0 to 100; it is 100 exactly when every open
    trader position has the key of an open bot position, and 0 exactly
    when none has (or when there is no open trader position). *)
Theorem match_rate_is_a_percentage (traderPositions botPositions
                                      : list Position) :
  let traderOpen := List.filter isOpen traderPositions in
  let botOpen := List.filter isOpen botPositions in
  let rate := calculateMatchRate traderPositions botPositions in
  (length traderOpen <= POSITIONS_LIMIT)%nat ->
  (exists k, (k <= 100)%nat /\ rate = number_of_nat k) /\
  (traderOpen <> [] ->
   (rate = 100%float <->
    forall p, In p traderOpen -> has_key (getKey p) botOpen = true)) /\
  (rate = 0%float <->
   forall p, In p traderOpen -> has_key (getKey p) botOpen = false).
Proof.
  intros traderOpen botOpen rate Hlimit. subst rate.
  unfold calculateMatchRate. fold traderOpen botOpen.
  pose proof (matches_of_filter traderOpen botOpen) as Hm.
  pose proof (filter_length_le (fun p => has_key (getKey p) botOpen) traderOpen) as Hle.
  destruct traderOpen as [|p0 l] eqn:E.
  - simpl. split; [exists 0%nat; split; [lia|reflexivity]|].
    split; [congruence|]. split; [intros _ p []|reflexivity].
  - change (length (p0 :: l) =? 0)%nat with false. cbv iota.
    set (m := matches_of (p0 :: l) botOpen) in *.
    assert (Hok : rate_ok m (length (p0 :: l)) = true).
    { apply rate_ok_bounded; [simpl in *; lia|]. rewrite Hm. exact Hle. }
    unfold rate_ok in Hok. fold (rate_of m (length (p0 :: l))).
    apply andb_true_iff in Hok. destruct Hok as [Hok H0].
    apply andb_true_iff in Hok. destruct Hok as [Hk H100].
    apply Bool.eqb_prop in H0, H100.
    split; [|split].
    + apply existsb_exists in Hk. destruct Hk as (k & Hin & Hk).
      apply in_seq in Hin. apply FloatAxioms.Leibniz.eqb_spec in Hk.
      exists k. split; [lia|exact Hk].
    + intros _. rewrite <- FloatAxioms.Leibniz.eqb_spec, H100, Nat.eqb_eq, Hm.
      apply filter_length_all.
    + rewrite <- FloatAxioms.Leibniz.eqb_spec, H0, Nat.eqb_eq, Hm.
      apply filter_length_zero.
Qed.

End MatchRate.

(** A paired trader and bot position: the rate is 100. *)
Lemma match_rate_witness :
  (length (List.filter isOpen [trader_zero_entry]) <= Panels.POSITIONS_LIMIT)%nat /\
  exists k, (k <= 100)%nat /\
            Panels.calculateMatchRate [trader_zero_entry] [bot_half_entry]
            = Builtins.number_of_nat k.
Proof.
  assert (H : (length (List.filter isOpen [trader_zero_entry])
               <= Panels.POSITIONS_LIMIT)%nat) by (vm_compute; lia).
  split; [exact H|].
  exact (proj1 (match_rate_is_a_percentage [trader_zero_entry] [bot_half_entry] H)).
Defined.

(** ** Formatting *)

Section Formatting.

Import Builtins Panels.

Lemma cents_table :
  forallb (fun k =>
             match formatPriceCents (Some (two_decimals k)) with
             | inr c => PrimFloat.Leibniz.eqb c (number_of_nat k)
             | inl _ => false
             end)
          (seq 0 101) = true.
Proof. vm_compute. reflexivity. Qed.

(** The cents of a price: for every price from 0.00 to 1.00 written with
    two decimals, [formatPriceCents] gives back its number of cents,
    although neither the price nor its product by 100 is exact. *)
Theorem cents_of_a_two_decimal_price (k : nat) :
  (k <= 100)%nat ->
  formatPriceCents (Some (two_decimals k)) = inr (number_of_nat k).
Proof.
  intros Hk. pose proof cents_table as T. rewrite forallb_forall in T.
  specialize (T k). rewrite in_seq in T. specialize (T ltac:(lia)).
  destruct (formatPriceCents (Some (two_decimals k))) as [t|c]; [discriminate|].
  apply FloatAxioms.Leibniz.eqb_spec in T. rewrite T. reflexivity.
Qed.

(** The price 0.29: its product by 100 is not 29, its cents are. *)
Lemma cents_witness :
  (29 <= 100)%nat /\
  PrimFloat.eqb (two_decimals 29 * 100)%float 29 = false /\
  formatPriceCents (Some (two_decimals 29)) = inr (number_of_nat 29).
Proof.
  split; [lia|]. split; [vm_compute; reflexivity|].
  apply (cents_of_a_two_decimal_price 29). lia.
Defined.

Lemma length_substring (n m : nat) (s : string) :
  (n + m <= String.length s)%nat -> String.length (String.substring n m s) = m.
Proof.
  revert n m. induction s as [|c s IH]; intros n m H; simpl in *.
  - destruct n, m; simpl; lia.
  - destruct n as [|n].
    + destruct m as [|m]; simpl; [reflexivity|]. f_equal. apply IH. lia.
    + apply IH. lia.
Qed.

Lemma length_append (s1 s2 : string) :
  String.length (s1 ++ s2)%string = (String.length s1 + String.length s2)%nat.
Proof. induction s1 as [|c s1 IH]; simpl; [reflexivity|]. rewrite IH. reflexivity. Qed.

Lemma substring_prefix_append (s1 s2 : string) (n : nat) :
  String.length s1 = n -> String.substring 0 n (s1 ++ s2)%string = s1.
Proof.
  revert n. induction s1 as [|c s1 IH]; intros n <-; simpl.
  - destruct s2; reflexivity.
  - f_equal. apply IH. reflexivity.
Qed.

Lemma substring_skip_append (s1 s2 : string) (n m : nat) :
  String.substring (String.length s1 + n) m (s1 ++ s2)%string
  = String.substring n m s2.
Proof. induction s1 as [|c s1 IH]; simpl; [reflexivity|exact IH]. Qed.

Lemma substring_whole (s : string) (m : nat) :
  String.length s = m -> String.substring 0 m s = s.
Proof.
  revert m. induction s as [|c s IH]; intros m <-; simpl; [reflexivity|].
  f_equal. apply IH. reflexivity.
Qed.

(** A shortened address: an address of ten characters or more becomes
    its first six characters, three dots and its last four, thirteen
    characters in all; a shorter one is shown as it is, and a missing one
    as two dashes.  No label is longer than thirteen characters. *)
Theorem shortAddress_shape (addr : string) :
  (String.length (shortAddress addr) <= 13)%nat /\
  ((10 <= String.length addr)%nat ->
   shortAddress addr =
     (String.substring 0 6 addr ++ "..."
      ++ String.substring (String.length addr - 4) 4 addr)%string /\
   String.length (shortAddress addr) = 13%nat /\
   String.substring 0 6 (shortAddress addr) = String.substring 0 6 addr /\
   String.substring 9 4 (shortAddress addr)
     = String.substring (String.length addr - 4) 4 addr) /\
  ((1 <= String.length addr < 10)%nat -> shortAddress addr = addr) /\
  (addr = "" -> shortAddress addr = "--").
Proof.
  unfold shortAddress.
  destruct (String.eqb_spec addr "") as [->|Hne].
  - simpl. repeat split; try lia; intros; simpl in *; try lia; reflexivity.
  - simpl. destruct (Nat.ltb_spec (String.length addr) 10) as [Hlt|Hge].
    + repeat split; try lia; try congruence.
    + assert (L : String.length
                    (String.substring 0 6 addr ++ "..."
                     ++ String.substring (String.length addr - 4) 4 addr)%string
                  = 13%nat).
      { rewrite !length_append, !length_substring by lia. reflexivity. }
      split; [lia|]. split; [|split; [lia|congruence]].
      intros _. split; [reflexivity|]. split; [exact L|]. split.
      * apply substring_prefix_append, length_substring. lia.
      * assert (L6 : String.length (String.substring 0 6 addr) = 6%nat)
          by (apply length_substring; lia).
        set (tail := String.substring (String.length addr - 4) 4 addr).
        transitivity
          (String.substring
             (String.length (String.substring 0 6 addr)
              + (String.length "..." + 0)) 4
             (String.substring 0 6 addr ++ "..." ++ tail)%string).
        { rewrite L6. reflexivity. }
        rewrite !substring_skip_append.
        apply substring_whole, length_substring. lia.
Qed.

(** The age of a timestamp: the text is a count and a unit.  Below a
    minute (and for a timestamp in the future, with a negative count) it
    is the seconds; then the whole minutes, from 1 to 59; then the whole
    hours, from 1 to 23; then the whole days, from 1 on. *)
Theorem formatRelativeTime_units (Date_now timestamp : Z) :
  let diff := (Date_now / 1000 - timestamp)%Z in
  exists n : Z,
    ((diff < 60)%Z /\ n = diff /\
     formatRelativeTime Date_now timestamp = (pretty n ++ "s ago")%string) \/
    ((60 <= diff < 3600)%Z /\ (1 <= n <= 59)%Z /\
     (60 * n <= diff < 60 * n + 60)%Z /\
     formatRelativeTime Date_now timestamp = (pretty n ++ "m ago")%string) \/
    ((3600 <= diff < 86400)%Z /\ (1 <= n <= 23)%Z /\
     (3600 * n <= diff < 3600 * n + 3600)%Z /\
     formatRelativeTime Date_now timestamp = (pretty n ++ "h ago")%string) \/
    ((86400 <= diff)%Z /\ (1 <= n)%Z /\
     (86400 * n <= diff < 86400 * n + 86400)%Z /\
     formatRelativeTime Date_now timestamp = (pretty n ++ "d ago")%string).
Proof.
  intros diff. unfold formatRelativeTime. fold diff.
  destruct (Z.ltb_spec diff 60) as [H1|H1].
  - exists diff. left. auto.
  - destruct (Z.ltb_spec diff 3600) as [H2|H2].
    + exists (diff / 60)%Z. right. left.
      pose proof (Z.div_mod diff 60 ltac:(lia)) as D.
      pose proof (Z.mod_pos_bound diff 60 ltac:(lia)) as B.
      repeat split; try lia.
    + destruct (Z.ltb_spec diff 86400) as [H3|H3].
      * exists (diff / 3600)%Z. right. right. left.
        pose proof (Z.div_mod diff 3600 ltac:(lia)) as D.
        pose proof (Z.mod_pos_bound diff 3600 ltac:(lia)) as B.
        repeat split; try lia.
      * exists (diff / 86400)%Z. right. right. right.
        pose proof (Z.div_mod diff 86400 ltac:(lia)) as D.
        pose proof (Z.mod_pos_bound diff 86400 ltac:(lia)) as B.
        repeat split; try lia.
Qed.

End Formatting.

(** ** The trade comparison *)

Section TradeComparison.

Import Trades.

Lemma copies_within_spec (window : Z) (traderTrade b : Activity.t) :
  copies_within window traderTrade b = true <->
  Activity.conditionId b = Activity.conditionId traderTrade /\
  Activity.side b = Activity.side traderTrade /\
  (0 < Activity.timestamp b - Activity.timestamp traderTrade < window)%Z.
Proof.
  unfold copies_within.
  rewrite !andb_true_iff, !String.eqb_eq, !Z.ltb_lt. split.
  - intros [[[Hc Hs] Hgt] Hlt]. repeat split; auto; lia.
  - intros (Hc & Hs & Hgt & Hlt). repeat split; auto; lia.
Qed.


Lemma length_flat_map_le {A B} (f : A -> list B) (l : list A) :
  (forall a, length (f a) <= 1)%nat -> (length (flat_map f l) <= length l)%nat.
Proof.
  intros Hf. induction l as [|a l IH]; simpl; [lia|].
  rewrite length_app. specialize (Hf a). lia.
Qed.


Lemma find_exists {A} (f : A -> bool) (l : list A) (x : A) :
  In x l -> f x = true -> exists y, find f l = Some y.
Proof.
  intros Hx Hf. destruct (find f l) as [y|] eqn:F; [eauto|].
  pose proof (find_none f l F x Hx). congruence.
Qed.

Lemma slips_le_rows (botActivity : list Activity.t) (traderTrade : Activity.t) :
  (length (slips_of_trade botActivity traderTrade)
   <= length (if is_trade traderTrade
              then rows_of_trade (List.filter is_trade botActivity) traderTrade
              else []))%nat.
Proof.
  unfold slips_of_trade.
  destruct (is_trade traderTrade); simpl; [|lia].
  destruct (find (fun b => is_trade b && copies_within 300 traderTrade b)
                 botActivity) as [b|] eqn:F; [|simpl; lia].
  apply find_some in F. destruct F as [Hb Hc].
  apply andb_true_iff in Hc. destruct Hc as [Hbt Hc].
  apply copies_within_spec in Hc.
  assert (Hc' : copies_within 600 traderTrade b = true).
  { apply copies_within_spec. destruct Hc as (? & ? & ?). repeat split; auto; lia. }
  assert (Hb' : In b (List.filter is_trade botActivity)) by (apply filter_In; auto).
  destruct (find_exists _ _ b Hb' Hc') as [b' F'].
  unfold rows_of_trade. rewrite F'.
  destruct (JS.gt (Activity.price traderTrade) 0); simpl; lia.
Qed.

Lemma flat_map_filter_length (botActivity traderActivity : list Activity.t) :
  (length (flat_map (slips_of_trade botActivity) traderActivity)
   <= length (flat_map (rows_of_trade (List.filter is_trade botActivity))
                       (List.filter is_trade traderActivity)))%nat.
Proof.
  induction traderActivity as [|t l IH]; simpl; [lia|].
  rewrite length_app. pose proof (slips_le_rows botActivity t) as H.
  destruct (is_trade t); simpl in *; [rewrite length_app|]; lia.
Qed.

(** The slippage summary, which looks five minutes ahead, never counts
    more trades than the trade comparison, which looks ten minutes ahead,
    has rows: a trade of the trader counted by the first has a row in the
    second.  With no activity on either side it counts nothing. *)
Theorem slippage_count_within_comparison (traderActivity botActivity
                                            : list Activity.t) :
  let summary := calculateSlippage traderActivity botActivity in
  (count summary
   <= length (renderTradeComparison traderActivity botActivity))%nat /\
  (traderActivity = [] \/ botActivity = [] ->
   count summary = 0%nat /\ details summary = None) /\
  (forall slips, details summary = Some slips ->
     slips <> [] /\ count summary = length slips /\
     forall s, In s slips -> JS.gt (slip_traderPrice s) 0 = true).
Proof.
  intros summary. subst summary. unfold calculateSlippage.
  destruct traderActivity as [|t0 tl] eqn:ET; [simpl; repeat split; try lia; discriminate|].
  destruct botActivity as [|b0 bl] eqn:EB.
  { simpl. repeat split; try lia; discriminate. }
  change ((length (t0 :: tl) =? 0)%nat || (length (b0 :: bl) =? 0)%nat)
    with false. cbv iota.
  pose proof (flat_map_filter_length (b0 :: bl) (t0 :: tl)) as L.
  destruct (flat_map (slips_of_trade (b0 :: bl)) (t0 :: tl)) as [|s0 sl] eqn:ES.
  - simpl. repeat split; try lia; try discriminate.
  - change (length (s0 :: sl) =? 0)%nat with false. cbv iota. cbn [count details].
    split; [exact L|]. split; [intros [H|H]; discriminate|].
    intros slips Hs. inversion Hs; subst slips. split; [discriminate|].
    split; [reflexivity|].
    intros s Hin. rewrite <- ES in Hin. apply in_flat_map in Hin.
    destruct Hin as (t & _ & Hin). unfold slips_of_trade in Hin.
    destruct (negb (is_trade t)); [destruct Hin|].
    destruct (find _ (b0 :: bl)); [|destruct Hin].
    destruct (JS.gt (Activity.price t) 0) eqn:G; [|destruct Hin].
    destruct Hin as [<-|[]]. exact G.
Qed.

End TradeComparison.

(** ** The API server: one request for each tracked address *)

Section UniqueAddresses.

Import Builtins.

Lemma existsb_eqb_In (a : string) (l : list string) :
  existsb (String.eqb a) l = true <-> In a l.
Proof.
  rewrite existsb_exists. split.
  - intros (x & Hx & E). apply String.eqb_eq in E. subst. exact Hx.
  - intros H. exists a. split; [exact H|apply String.eqb_refl].
Qed.

Lemma unique_fold (arr seen : list string) :
  NoDup seen ->
  let result := fold_left (fun seen a => if existsb (String.eqb a) seen
                                         then seen else seen ++ [a])
                          arr seen in
  NoDup result /\
  (forall a, In a result <-> In a seen \/ In a arr) /\
  exists added, result = seen ++ added.
Proof.
  revert seen. induction arr as [|a arr IH]; intros seen Hnd; simpl.
  - split; [exact Hnd|]. split; [tauto|]. exists []. symmetry. apply app_nil_r.
  - destruct (existsb (String.eqb a) seen) eqn:E.
    + apply existsb_eqb_In in E.
      destruct (IH seen Hnd) as (H1 & H2 & H3).
      split; [exact H1|]. split; [|exact H3].
      intros x. rewrite H2. split; [tauto|].
      intros [H|[<-|H]]; auto.
    + assert (Hnd' : NoDup (seen ++ [a])).
      { apply NoDup_app. split; [exact Hnd|]. split.
        - intros x Hx Hx'. apply list_elem_of_In in Hx, Hx'.
          destruct Hx' as [<-|[]].
          apply existsb_eqb_In in Hx. congruence.
        - apply NoDup_singleton. }
      destruct (IH (seen ++ [a]) Hnd') as (H1 & H2 & added & H3).
      split; [exact H1|]. split.
      * intros x. rewrite H2, in_app_iff. simpl. tauto.
      * exists ([a] ++ added). rewrite H3, <- app_assoc. reflexivity.
Qed.

Lemma unique_of_NoDup (arr seen : list string) :
  NoDup (seen ++ arr) ->
  fold_left (fun seen a => if existsb (String.eqb a) seen
                           then seen else seen ++ [a]) arr seen
  = seen ++ arr.
Proof.
  revert seen. induction arr as [|a arr IH]; intros seen Hnd; simpl.
  - symmetry. apply app_nil_r.
  - destruct (existsb (String.eqb a) seen) eqn:E.
    + apply existsb_eqb_In in E. apply NoDup_app in Hnd.
      destruct Hnd as (_ & Hdisj & _). exfalso.
      apply (Hdisj a); apply list_elem_of_In; [exact E|left; reflexivity].
    + rewrite IH; rewrite <- app_assoc; [reflexivity|exact Hnd].
Qed.

Lemma unique_NoDup (arr : list string) : NoDup (unique arr).
Proof.
  destruct (unique_fold arr [] NoDup_nil_2) as (H1 & _). exact H1.
Qed.

Lemma filter_absorb {A} (f g : A -> bool) (l : list A) :
  (forall x, f x = true -> g x = true) ->
  List.filter f (List.filter g l) = List.filter f l.
Proof.
  intros Hfg. induction l as [|x l IH]; simpl; [reflexivity|].
  destruct (g x) eqn:G; simpl.
  - rewrite IH. reflexivity.
  - destruct (f x) eqn:F; [|exact IH].
    rewrite (Hfg x F) in G. discriminate.
Qed.

Lemma filter_both {A} (f g fg : A -> bool) (l : list A) :
  (forall x, fg x = g x && f x) ->
  List.filter fg l = List.filter f (List.filter g l).
Proof.
  intros H. induction l as [|x l IH]; simpl; [reflexivity|].
  rewrite H. destruct (g x); simpl; [|exact IH].
  destruct (f x); rewrite IH; reflexivity.
Qed.

(** What the [Set] holds after the elements of [arr] are added to
    [seen]: [seen], then the new elements at their first occurrence. *)
Lemma unique_fold_first (arr seen : list string) :
  fold_left (fun seen a => if existsb (String.eqb a) seen
                           then seen else seen ++ [a]) arr seen
  = seen ++ List.filter (fun b => negb (existsb (String.eqb b) seen))
                        (first_occurrences arr).
Proof.
  revert seen. induction arr as [|a arr IH]; intros seen; simpl.
  - symmetry. apply app_nil_r.
  - destruct (existsb (String.eqb a) seen) eqn:E; simpl.
    + rewrite IH. f_equal. symmetry. apply filter_absorb.
      intros x Hx. apply negb_true_iff in Hx. apply negb_true_iff.
      destruct (String.eqb_spec x a) as [->|]; [congruence|reflexivity].
    + rewrite IH, <- app_assoc. f_equal. simpl. f_equal.
      apply filter_both. intros x.
      rewrite existsb_app. simpl. rewrite orb_false_r, negb_orb.
      apply andb_comm.
Qed.

Lemma unique_first_occurrences (arr : list string) :
  unique arr = first_occurrences arr.
Proof.
  unfold unique. rewrite unique_fold_first. simpl.
  apply filter_all. reflexivity.
Qed.

(** [unique] keeps one copy of every address, at the place of its first
    occurrence: the first element stays first, and the rest is what
    [unique] makes of the rest without that element.  Its result has no
    duplicate and the same members as the list; a list without duplicates
    is returned as it is, so that applying [unique] twice is applying it
    once. *)
Theorem unique_removes_duplicates (arr : list string) :
  unique arr = first_occurrences arr /\
  (forall a rest,
     arr = a :: rest ->
     unique arr
     = a :: List.filter (fun b => negb (String.eqb b a)) (unique rest)) /\
  NoDup (unique arr) /\
  (forall a, In a (unique arr) <-> In a arr) /\
  (NoDup arr -> unique arr = arr) /\
  unique (unique arr) = unique arr.
Proof.
  destruct (unique_fold arr [] NoDup_nil_2) as (H1 & H2 & _).
  fold (unique arr) in H1, H2.
  assert (H3 : forall l, NoDup l -> unique l = l).
  { intros l Hl. unfold unique. rewrite unique_of_NoDup; [reflexivity|exact Hl]. }
  split; [apply unique_first_occurrences|]. split.
  { intros a rest ->. rewrite !unique_first_occurrences. reflexivity. }
  split; [exact H1|]. split.
  - intros a. rewrite H2. simpl. tauto.
  - split; [apply H3|apply H3, H1].
Qed.

End UniqueAddresses.

Section ServerRoutes.

Import Builtins Server.

Variable Data : Type.
Variable W : World Data.

Lemma traderPromises_sent (url_of : string -> string)
      (addresses : list string) (sent : Requests) :
  fst (traderPromises Data W url_of addresses sent)
  = sent ++ map url_of addresses.
Proof.
  revert sent. induction addresses as [|a l IH]; intros sent; simpl.
  - symmetry. apply app_nil_r.
  - specialize (IH (sent ++ [url_of a])).
    destruct (traderPromises Data W url_of l (sent ++ [url_of a]))
      as [sent2 rs].
    simpl in *. rewrite IH, <- app_assoc. reflexivity.
Qed.

(** The promise of the [i]-th address holds what the data API answers to
    its request, sent after the requests of the addresses before it. *)
Lemma traderPromises_nth (url_of : string -> string)
      (addresses : list string) (sent : Requests) (i : nat) :
  nth_error (snd (traderPromises Data W url_of addresses sent)) i =
  option_map
    (fun a => (a, axios_get Data W
                    (sent ++ firstn i (map url_of addresses)) (url_of a)))
    (nth_error addresses i).
Proof.
  revert sent i. induction addresses as [|a l IH]; intros sent i; simpl.
  - destruct i; reflexivity.
  - specialize (IH (sent ++ [url_of a])).
    destruct (traderPromises Data W url_of l (sent ++ [url_of a]))
      as [sent2 rs].
    destruct i as [|i]; simpl.
    + rewrite app_nil_r. reflexivity.
    + simpl in IH. rewrite IH, <- app_assoc. reflexivity.
Qed.

Lemma server_first_rejection_none (time : nat -> Z) (i : nat)
      (rs : list (string * Answer Data)) (best : option (nat * Failure)) :
  first_rejection Data time i rs best = None ->
  best = None /\
  rs = map (fun entry => (fst entry, Resolved (snd entry)))
           (entries_of Data rs).
Proof.
  revert i best. induction rs as [|[a [d|f]] rs IH]; intros i best; simpl.
  - auto.
  - intros H. destruct (IH _ _ H) as [Hb Hrs]. split; [exact Hb|].
    f_equal. exact Hrs.
  - intros H. destruct (IH _ _ H) as [Hb _]. exfalso.
    destruct best as [[j f']|]; [destruct (time i <? time j)%Z|]; discriminate.
Qed.

(** The rejection chosen is one of the rejections, and none settles
    before it. *)
Lemma server_first_rejection_earliest (time : nat -> Z)
      (rs : list (string * Answer Data)) (i : nat)
      (best : option (nat * Failure)) (j : nat) (f : Failure) :
  first_rejection Data time i rs best = Some (j, f) ->
  (best = Some (j, f) \/
   exists n a, j = (i + n)%nat /\ nth_error rs n = Some (a, Rejected f)) /\
  (forall k f', best = Some (k, f') -> (time j <= time k)%Z) /\
  (forall n a f', nth_error rs n = Some (a, Rejected f') ->
                  (time j <= time (i + n)%nat)%Z).
Proof.
  revert i best. induction rs as [|[a0 [d|f0]] rs IH]; intros i best; simpl.
  - intros ->. split; [auto|]. split.
    + intros k f' E. injection E as <- _. lia.
    + intros [|n] a f' E; discriminate.
  - intros H. destruct (IH _ _ H) as (H1 & H2 & H3). split; [|split].
    + destruct H1 as [H1|(n & a & -> & Hn)]; [auto|].
      right. exists (S n), a. split; [lia|exact Hn].
    + exact H2.
    + intros [|n] a f' E; [discriminate|].
      replace (i + S n)%nat with (S i + n)%nat by lia. exact (H3 n a f' E).
  - intros H. destruct (IH _ _ H) as (H1 & H2 & H3).
    assert (Hlater : forall n a f',
               nth_error rs n = Some (a, Rejected f') ->
               (time j <= time (i + S n)%nat)%Z).
    { intros n a f' E. replace (i + S n)%nat with (S i + n)%nat by lia.
      exact (H3 n a f' E). }
    assert (Hshift : (exists n a, j = (S i + n)%nat /\
                                  nth_error rs n = Some (a, Rejected f)) ->
                     exists n a, j = (i + n)%nat /\
                                 nth_error ((a0, Rejected f0) :: rs) n
                                 = Some (a, Rejected f)).
    { intros (n & a & -> & Hn). exists (S n), a. split; [lia|exact Hn]. }
    assert (Hhere : Some (i, f0) = Some (j, f) ->
                    exists n a, j = (i + n)%nat /\
                                nth_error ((a0, Rejected f0) :: rs) n
                                = Some (a, Rejected f)).
    { intros E. injection E as <- <-. exists 0%nat, a0.
      split; [lia|reflexivity]. }
    destruct best as [[k0 f1]|].
    + destruct (time i <? time k0)%Z eqn:T.
      * apply Z.ltb_lt in T. pose proof (H2 i f0 eq_refl) as Hi.
        split; [|split].
        -- right. destruct H1 as [H1|H1]; [exact (Hhere H1)|exact (Hshift H1)].
        -- intros k f' E. injection E as <- _. lia.
        -- intros [|n] a f' E; [|exact (Hlater n a f' E)].
           replace (i + 0)%nat with i by lia. exact Hi.
      * apply Z.ltb_ge in T. pose proof (H2 k0 f1 eq_refl) as Hk.
        split; [|split].
        -- destruct H1 as [H1|H1]; [left; exact H1|right; exact (Hshift H1)].
        -- intros k f' E. injection E as <- _. exact Hk.
        -- intros [|n] a f' E; [|exact (Hlater n a f' E)].
           replace (i + 0)%nat with i by lia. lia.
    + pose proof (H2 i f0 eq_refl) as Hi. split; [|split].
      * right. destruct H1 as [H1|H1]; [exact (Hhere H1)|exact (Hshift H1)].
      * intros k f' E. discriminate.
      * intros [|n] a f' E; [|exact (Hlater n a f' E)].
        replace (i + 0)%nat with i by lia. exact Hi.
Qed.

(** A route asks the data API once for every distinct tracked address, in
    the order of first mention, with the same limit, whatever the
    answers.  It asks for the bot's wallet last, and only when all of
    these requests succeeded.  A success lists one entry for each
    distinct address, in that order and with the data its request was
    answered, then the bot's wallet.  A failure gives status 500 with
    the route's text and no data: when a request for a tracked address
    failed, the message is that of the failure that settled first, and
    the bot's wallet is not asked for; else the message is that of the
    failed request for the bot's wallet. *)
Theorem route_requests_and_response
        (resource default_limit failure_text : string)
        (query_limit : option string) (sent : Requests) :
  let limit := limit_text W default_limit query_limit in
  let addresses := first_occurrences (USER_ADDRESSES Data W) in
  let trader_urls := map (route_url resource limit) addresses in
  let bot_url := route_url resource limit (PROXY_WALLET Data W) in
  let asked i address :=
    axios_get Data W (sent ++ firstn i trader_urls)
              (route_url resource limit address) in
  let bot_asked := axios_get Data W (sent ++ trader_urls) bot_url in
  let settled := settled_at Data W (sent ++ trader_urls) in
  let result := route Data W resource default_limit failure_text
                      query_limit sent in
  match snd result with
  | Json traders bot timestamp =>
      fst result = sent ++ trader_urls ++ [bot_url] /\
      map fst traders = addresses /\
      NoDup (map fst traders) /\
      (forall i address data,
         nth_error traders i = Some (address, data) ->
         asked i address = Resolved data) /\
      fst bot = PROXY_WALLET Data W /\
      bot_asked = Resolved (snd bot) /\
      timestamp = Date_now Data W (fst result)
  | Status500 error message =>
      error = failure_text /\
      ((fst result = sent ++ trader_urls /\
        exists i address failure,
          nth_error addresses i = Some address /\
          asked i address = Rejected failure /\
          message = message_of failure /\
          forall k other failure',
            nth_error addresses k = Some other ->
            asked k other = Rejected failure' ->
            (settled i <= settled k)%Z) \/
       (fst result = sent ++ trader_urls ++ [bot_url] /\
        (forall i address,
           nth_error addresses i = Some address ->
           exists data, asked i address = Resolved data) /\
        exists failure,
          bot_asked = Rejected failure /\ message = message_of failure))
  end.
Proof.
  intros limit addresses trader_urls bot_url asked bot_asked settled result.
  subst result. unfold route.
  fold (limit_text W default_limit query_limit). fold limit.
  change (fun address : string =>
            (DATA_API_BASE ++ "/" ++ resource ++ "?user=" ++ address
             ++ "&limit=" ++ limit)%string)
    with (route_url resource limit).
  rewrite unique_first_occurrences. fold addresses.
  unfold fetch_all.
  pose proof (traderPromises_sent (route_url resource limit) addresses sent)
    as Hs.
  pose proof (traderPromises_nth (route_url resource limit) addresses sent)
    as Hn.
  destruct (traderPromises Data W (route_url resource limit) addresses sent)
    as [sent1 rs].
  cbn [fst snd] in Hs, Hn. fold trader_urls in Hs, Hn. subst sent1.
  fold settled.
  destruct (first_rejection Data settled 0 rs None) as [[j f]|] eqn:E.
  - cbn [fst snd]. split; [reflexivity|]. left. split; [reflexivity|].
    destruct (server_first_rejection_earliest _ _ _ _ _ _ E)
      as ([H1|(n & a & -> & Hj)] & _ & H3); [discriminate|].
    rewrite Hn in Hj.
    destruct (nth_error addresses n) as [a'|] eqn:Ea; [|discriminate].
    simpl in Hj. injection Hj as -> Hf.
    exists n, a, f. split; [exact Ea|]. split; [exact Hf|].
    split; [reflexivity|].
    intros k other f' Hk Hf'. apply (H3 k other f').
    rewrite Hn, Hk. simpl. unfold asked in Hf'. rewrite Hf'. reflexivity.
  - apply server_first_rejection_none in E. destruct E as [_ Hrs].
    assert (Hentry : forall i address data,
               nth_error (entries_of Data rs) i = Some (address, data) ->
               nth_error addresses i = Some address /\
               asked i address = Resolved data).
    { intros i address data Hi.
      pose proof (Hn i) as Hni. rewrite Hrs, nth_error_map, Hi in Hni.
      simpl in Hni.
      destruct (nth_error addresses i) as [a'|]; [|discriminate].
      simpl in Hni. injection Hni as -> Hd. split; [reflexivity|].
      symmetry. exact Hd. }
    assert (Hfst : map fst (entries_of Data rs) = addresses).
    { apply nth_error_ext. intros i. rewrite nth_error_map.
      pose proof (Hn i) as Hni. rewrite Hrs, nth_error_map in Hni.
      destruct (nth_error (entries_of Data rs) i) as [[a d]|];
        destruct (nth_error addresses i) as [a'|]; simpl in *;
        try discriminate; [|reflexivity].
      injection Hni as -> _. reflexivity. }
    unfold fetchJson.
    match goal with
    | |- context [axios_get Data W (sent ++ trader_urls) ?u] =>
        change (axios_get Data W (sent ++ trader_urls) u) with bot_asked
    end.
    clearbody bot_asked.
    destruct bot_asked as [botData|failure]; cbn [fst snd].
    + split; [rewrite <- app_assoc; reflexivity|]. split; [exact Hfst|].
      split; [rewrite Hfst; unfold addresses;
              rewrite <- unique_first_occurrences; apply unique_NoDup|].
      split; [intros i address data Hi; apply (Hentry i address data Hi)|].
      split; [reflexivity|]. split; reflexivity.
    + split; [reflexivity|]. right.
      split; [rewrite <- app_assoc; reflexivity|]. split.
      * intros i address Hi.
        pose proof (Hn i) as Hni. rewrite Hrs, nth_error_map, Hi in Hni.
        destruct (nth_error (entries_of Data rs) i) as [[a d]|] eqn:Ee;
          [|discriminate].
        simpl in Hni. injection Hni as <- Hd. exists d. symmetry. exact Hd.
      * exists failure. split; reflexivity.
Qed.

End ServerRoutes.

(** Two tracked addresses whose requests both fail: one request is sent
    for each, none for the bot's wallet, and the answer carries the
    failure that arrived first. *)
Example api_positions_server_race :
  Server.api_positions unit server_race None [] =
  (["https://data-api.polymarket.com/positions?user=0xfirst&limit=100";
    "https://data-api.polymarket.com/positions?user=0xsecond&limit=100"],
   Server.Status500 "Failed to fetch positions" "429 Too Many Requests").
Proof. vm_compute. reflexivity. Qed.

(** ** The refresh cycle of the dashboard *)

Section RefreshCycle.

Import Refresh.

Lemma start_ok (st : State) (running : nat) :
  page_ok {| state := st; in_flight := running |} \/
  (isLoading st = false /\ running = 0%nat /\
   (countdown st <= REFRESH_INTERVAL)%Z) ->
  page_ok (start st running).
Proof.
  unfold start, loadAllData_start, page_ok. simpl.
  intros [(H1 & H2 & H3 & H4)|(H1 & -> & H3)].
  - destruct (isLoading st) eqn:E; simpl.
    + rewrite E. tauto.
    + assert (running = 0%nat).
      { destruct running as [|[|n]]; [reflexivity| |lia].
        destruct H2 as [_ H2]. specialize (H2 eq_refl). discriminate. }
      subst. repeat split; auto; try lia; discriminate.
  - rewrite H1. simpl. repeat split; auto; try lia; discriminate.
Qed.

Lemma step_ok (page : Page) (input : Input) :
  page_ok page -> page_ok (step page input).
Proof.
  intros Hok. destruct page as [st running]. destruct input; simpl.
  - destruct (Z.leb_spec (countdown st - 1) 0) as [Hle|Hgt].
    + apply start_ok. destruct Hok as (H1 & H2 & H3 & H4). simpl in *.
      destruct (isLoading st) eqn:E.
      * left. unfold page_ok. simpl. rewrite E.
        repeat split; try tauto; try lia; try discriminate.
      * right. simpl.
        assert (running = 0%nat).
        { destruct running as [|[|n]]; [reflexivity| |lia].
          destruct H2 as [_ H2]. specialize (H2 eq_refl). discriminate. }
        repeat split; try tauto; try lia.
    + destruct Hok as (H1 & H2 & H3 & H4). unfold page_ok. simpl in *.
      repeat split; try tauto; lia.
  - apply start_ok. left. exact Hok.
  - apply start_ok. left. exact Hok.
  - destruct Hok as (H1 & H2 & H3 & H4). unfold page_ok. simpl in *. tauto.
  - destruct running as [|running]; [exact Hok|].
    destruct Hok as (H1 & H2 & H3 & H4). simpl in *.
    assert (running = 0%nat) by lia. subst.
    unfold page_ok, loadAllData_resume. simpl.
    destruct answer; simpl; unfold REFRESH_INTERVAL;
      repeat split; try lia; try discriminate; reflexivity.
Qed.

(** Whatever happens to the page, in whatever order, at most one refresh
    has its requests sent and unanswered, and the flag [isLoading] is set
    exactly while there is one; the countdown never exceeds the refresh
    interval, and when no refresh is running it is at least 1. *)
Theorem at_most_one_refresh_in_flight (inputs : list Input) :
  let page := run inputs in
  (in_flight page <= 1)%nat /\
  (isLoading (state page) = true <-> in_flight page = 1%nat) /\
  (countdown (state page) <= REFRESH_INTERVAL)%Z /\
  (isLoading (state page) = false -> (1 <= countdown (state page))%Z).
Proof.
  intros page. subst page. unfold run.
  change (page_ok (fold_left step inputs loaded)).
  assert (H0 : page_ok loaded).
  { unfold loaded. apply start_ok. right. simpl.
    unfold REFRESH_INTERVAL. repeat split; lia. }
  revert H0. generalize loaded.
  induction inputs as [|input inputs IH]; intros page Hok; simpl.
  - exact Hok.
  - apply IH, step_ok, Hok.
Qed.

Lemma run_ok (inputs : list Input) : page_ok (run inputs).
Proof.
  unfold run.
  assert (H0 : page_ok loaded).
  { unfold loaded. apply start_ok. right. simpl.
    unfold REFRESH_INTERVAL. repeat split; lia. }
  revert H0. generalize loaded.
  induction inputs as [|input inputs IH]; intros page Hok; simpl.
  - exact Hok.
  - apply IH, step_ok, Hok.
Qed.

Lemma run_snoc (inputs : list Input) (input : Input) :
  run (inputs ++ [input]) = step (run inputs) input.
Proof. unfold run. rewrite fold_left_app. reflexivity. Qed.

Lemma start_shown (st : State) (running : nat) :
  shown (state (start st running)) = shown st /\
  activeTab (state (start st running)) = activeTab st.
Proof.
  unfold start, loadAllData_start. destruct (isLoading st); split; reflexivity.
Qed.

(** Only the answers to a refresh change what the page shows, and only
    when they are all there. *)
Lemma step_shown (page : Page) (input : Input) :
  (forall p, input <> Answers (Some p)) ->
  shown (state (step page input)) = shown (state page).
Proof.
  intros Hin. destruct page as [st running].
  destruct input as [| | |panel tab|[p|]]; simpl.
  - destruct (countdown st - 1 <=? 0)%Z; [|reflexivity].
    rewrite (proj1 (start_shown _ _)). reflexivity.
  - apply start_shown.
  - apply start_shown.
  - reflexivity.
  - exfalso. exact (Hin p eq_refl).
  - destruct running; reflexivity.
Qed.

Lemma step_tabs (page : Page) (input : Input) :
  (forall panel tab, input <> TabClick panel tab) ->
  activeTab (state (step page input)) = activeTab (state page).
Proof.
  intros Hin. destruct page as [st running].
  destruct input as [| | |panel tab|answer]; simpl.
  - destruct (countdown st - 1 <=? 0)%Z; [|reflexivity].
    rewrite (proj2 (start_shown _ _)). reflexivity.
  - apply start_shown.
  - apply start_shown.
  - exfalso. exact (Hin panel tab eq_refl).
  - destruct running; [reflexivity|]. destruct answer; reflexivity.
Qed.

(** The assignments of a successful refresh read the first trader entry
    and the bot entry of each payload, and nothing else. *)
Lemma resume_shown (p : Payloads) (st : State) :
  shown (loadAllData_resume (Some p) st) = shown_of p.
Proof.
  destruct p as [[config_traders proxy] [positions_traders positions_bot]
                 [activity_traders activity_bot]].
  unfold shown, shown_of, loadAllData_resume, finish, assign, first_trader,
    items_or_empty, address_of, or_text, first_entry, items_of.
  repeat f_equal;
    repeat (cbn -[String.eqb];
            match goal with
            | |- context [items ?e] => is_var e; destruct e
            | |- context [address ?e] => is_var e; destruct e
            | |- context [mbind _ ?x] => is_var x; destruct x
            | |- context [match ?x with _ => _ end] => is_var x; destruct x
            | |- context [String.eqb ?x ""] => destruct (String.eqb x "")
            end); reflexivity.
Qed.

(** What the page shows is the data of the last refresh that succeeded.
    A refresh that fails, like a tick, a click or a change of tab,
    leaves the positions, the activity and the addresses as they were;
    a refresh that succeeds replaces them all by the data of the first
    trader entry and of the bot entry of its payloads, whatever was
    shown before.  Either way the end of a refresh clears the flag and
    starts the countdown again from the refresh interval, and only a
    click on a tab changes the tabs.  So the page never shows anything
    but the initial empty data or the data of one answer. *)
Theorem refresh_keeps_data_on_failure (inputs : list Input) :
  (forall input,
     (forall p, input <> Answers (Some p)) ->
     shown (state (run (inputs ++ [input]))) = shown (state (run inputs))) /\
  (forall p,
     isLoading (state (run inputs)) = true ->
     shown (state (run (inputs ++ [Answers (Some p)]))) = shown_of p) /\
  (forall answer,
     isLoading (state (run inputs)) = true ->
     let page := run (inputs ++ [Answers answer]) in
     isLoading (state page) = false /\
     countdown (state page) = REFRESH_INTERVAL /\
     in_flight page = 0%nat) /\
  (forall input,
     (forall panel tab, input <> TabClick panel tab) ->
     activeTab (state (run (inputs ++ [input])))
     = activeTab (state (run inputs))) /\
  (shown (state (run inputs)) = shown initial \/
   exists p, In (Answers (Some p)) inputs /\
             shown (state (run inputs)) = shown_of p).
Proof.
  assert (Hflight : forall l, isLoading (state (run l)) = true ->
                              in_flight (run l) = 1%nat).
  { intros l Hl. destruct (run_ok l) as (_ & H2 & _). apply H2, Hl. }
  split; [|split; [|split; [|split]]].
  - intros input Hin. rewrite run_snoc. apply step_shown, Hin.
  - intros p Hl. rewrite run_snoc. specialize (Hflight inputs Hl).
    destruct (run inputs) as [st running]. simpl in *. subst running.
    apply resume_shown.
  - intros answer Hl. rewrite run_snoc. specialize (Hflight inputs Hl).
    destruct (run inputs) as [st running]. simpl in *. subst running.
    destruct answer; repeat split.
  - intros input Hin. rewrite run_snoc. apply step_tabs, Hin.
  - induction inputs as [|input inputs IH] using rev_ind.
    + left. reflexivity.
    + rewrite run_snoc.
      assert (Hkeep : shown (state (run inputs)) = shown initial \/
                      exists p, In (Answers (Some p)) (inputs ++ [input]) /\
                                shown (state (run inputs)) = shown_of p).
      { destruct IH as [IH|(p & Hp & IH)]; [left; exact IH|].
        right. exists p. split; [apply in_app_iff; left; exact Hp|exact IH]. }
      destruct input as [| | |panel tab|[p|]];
        try (rewrite step_shown by (intros; discriminate); exact Hkeep).
      destruct (run inputs) as [st [|running]] eqn:E; [exact Hkeep|].
      right. exists p. split; [apply in_app_iff; right; left; reflexivity|].
      simpl. apply resume_shown.
Qed.

End RefreshCycle.

(** ** The reconciliation run: the balance and the end of the run *)

Section ReconcileBalance.

Import Reconcile.

Lemma for_of_carries (W : World) (my_balance : float) (l : list Position)
      (h new : History) :
  for_of l (loop_body W my_balance) h = (h ++ new, Ok tt) ->
  Forall (carries my_balance) new.
Proof.
  revert h new. induction l as [|pos l IH]; intros h new; simpl.
  - unfold ret. intros E. inversion E as [E'].
    rewrite <- (app_nil_r h) in E' at 1. apply app_inv_head in E'.
    subst. constructor.
  - unfold bind. rewrite loop_body_run. intros E.
    destruct (for_of_run W my_balance l
                (h ++ [closing_log pos; order_event W my_balance h pos;
                       task_end W my_balance h pos])) as (new' & Hrun & _).
    pose proof (IH _ _ Hrun) as Hall.
    rewrite Hrun, <- app_assoc in E. inversion E as [E'].
    apply app_inv_head in E'. subst new.
    change (Forall (carries my_balance)
              ([closing_log pos; order_event W my_balance h pos;
                task_end W my_balance h pos] ++ new')).
    apply Forall_app. split; [|exact Hall].
    repeat constructor; simpl; auto.
    unfold task_end. destruct (order_answer W my_balance h pos); exact I.
Qed.

(** The balance is read once for a run, before its first order, and every
    order of the run carries that one answer: it is not read again after
    an order is filled.  A run without a stale position reads no
    balance. *)
Theorem balance_is_read_once (W : World) (responses : list (list Position))
        (botPositions : list Position) (h : History) :
  let botOnly := botOnly_of responses botPositions in
  let events := added (reconcile W responses botPositions) h in
  (length (List.filter is_balance_lookup events) <= 1)%nat /\
  (botOnly = [] -> List.filter is_balance_lookup events = []) /\
  (forall condition pos user_position trade my_balance user_balance
          userAddress,
     In (EPostOrder condition pos user_position trade my_balance
                    user_balance userAddress) events ->
     getMyBalance W (h ++ announce (length botOnly)) (PROXY_WALLET W)
       = Ok my_balance /\
     exists later,
       events = announce (length botOnly)
                ++ [EGetMyBalance (PROXY_WALLET W)] ++ later /\
       Forall (carries my_balance) later).
Proof.
  intros botOnly events. subst events.
  destruct botOnly as [|p l] eqn:E.
  - subst botOnly.
    rewrite (added_app _ _ _ _ (reconcile_empty W _ _ h E)). simpl.
    split; [lia|]. split; [reflexivity|].
    intros ? ? ? ? ? ? ? [H|[H|[]]]; discriminate.
  - assert (Hne : botOnly_of responses botPositions <> [])
      by (subst botOnly; congruence).
    subst botOnly.
    destruct (getMyBalance W
                (h ++ announce (length (botOnly_of responses botPositions)))
                (PROXY_WALLET W)) as [b|err] eqn:Hbal.
    + destruct (reconcile_nonempty W responses botPositions h b Hne Hbal)
        as (new & Hrun & Hloop & _).
      pose proof (for_of_carries W b _ _ _ Hloop) as Hall.
      rewrite (added_app _ _ _ _ Hrun). rewrite <- E.
      assert (Hcount : List.filter is_balance_lookup
                         ((announce (length (botOnly_of responses botPositions))
                           ++ [EGetMyBalance (PROXY_WALLET W)] ++ new)
                          ++ [ECloseConnection])
                       = [EGetMyBalance (PROXY_WALLET W)]).
      { unfold announce. simpl. f_equal.
        rewrite List.filter_app. simpl. rewrite app_nil_r.
        apply length_zero_iff_nil, filter_length_zero. intros e He.
        rewrite List.Forall_forall in Hall. specialize (Hall e He).
        destruct e; simpl in *; try reflexivity. destruct Hall. }
      rewrite Hcount. split; [simpl; lia|]. split; [congruence|].
      intros condition pos user_position trade my_balance user_balance
             userAddress Hin.
      assert (my_balance = b).
      { apply in_app_iff in Hin. destruct Hin as [Hin|[Hin|[]]]; [|discriminate].
        unfold announce in Hin. simpl in Hin.
        destruct Hin as [Hin|[Hin|[Hin|Hin]]]; try discriminate.
        rewrite List.Forall_forall in Hall. exact (Hall _ Hin). }
      subst my_balance. split; [exact Hbal|].
      exists (new ++ [ECloseConnection]). split.
      * rewrite <- !app_assoc. reflexivity.
      * apply Forall_app. split; [exact Hall|]. repeat constructor.
    + rewrite (added_app _ _ _ _
                 (reconcile_balance_fails W responses botPositions h err Hne Hbal)).
      rewrite <- E. unfold announce. simpl.
      split; [lia|]. split; [congruence|].
      intros ? ? ? ? ? ? ? [H|[H|[H|[]]]]; discriminate.
Qed.

(** How a run of the script ends.  When it ends normally, its last act
    was to close the connection.  When it fails, either no order was
    attempted, or everything was attempted and closing the connection is
    what failed: a failed order never fails the run. *)
Theorem run_fails_before_orders_or_at_close (W : World) (h : History) :
  match snd (main W h) with
  | Ok _ => exists before, fst (main W h) = before ++ [ECloseConnection]
  | Throw err =>
      attempted (added (main W) h) = [] \/
      exists before, fst (main W h) = before ++ [ECloseConnection] /\
                     connection_close W before = Throw err
  end.
Proof.
  assert (R : forall responses botPositions h0 h2,
             (exists mid, h2 = h0 ++ mid /\ attempted mid = []) ->
             match snd (reconcile W responses botPositions h2) with
             | Ok _ => exists before,
                 fst (reconcile W responses botPositions h2)
                 = before ++ [ECloseConnection]
             | Throw err =>
                 attempted (drop (length h0)
                              (fst (reconcile W responses botPositions h2))) = [] \/
                 exists before,
                   fst (reconcile W responses botPositions h2)
                   = before ++ [ECloseConnection] /\
                   connection_close W before = Throw err
             end).
  { intros responses botPositions h0 h2 (mid & -> & Hmid).
    destruct (botOnly_of responses botPositions) as [|p l] eqn:E.
    - rewrite (reconcile_empty W _ _ _ E). cbn [fst snd].
      change [ELogger LSuccess NoStalePositions; ECloseConnection]
        with ([ELogger LSuccess NoStalePositions] ++ [ECloseConnection]).
      rewrite (app_assoc (h0 ++ mid) [ELogger LSuccess NoStalePositions]
                         [ECloseConnection]).
      destruct (connection_close W _) eqn:C.
      + eexists. reflexivity.
      + right. eexists. split; [reflexivity|exact C].
    - assert (Hne : botOnly_of responses botPositions <> []) by congruence.
      destruct (getMyBalance W
                  ((h0 ++ mid) ++ announce (length (botOnly_of responses botPositions)))
                  (PROXY_WALLET W)) as [b|err] eqn:Hbal.
      + destruct (reconcile_nonempty W responses botPositions _ b Hne Hbal)
          as (new & Hrun & _).
        rewrite Hrun. cbn [fst snd].
        set (A := announce (length (botOnly_of responses botPositions))
                  ++ [EGetMyBalance (PROXY_WALLET W)] ++ new).
        rewrite (app_assoc (h0 ++ mid) A [ECloseConnection]).
        destruct (connection_close W _) eqn:C.
        * eexists. reflexivity.
        * right. eexists. split; [reflexivity|exact C].
      + rewrite (reconcile_balance_fails W responses botPositions _ err Hne Hbal).
        cbn [fst snd]. left.
        rewrite <- (app_assoc h0 mid), drop_app_length.
        unfold attempted in *. rewrite flat_map_app, Hmid. reflexivity. }
  unfold added, main, bind, call.
  destruct (connectDB W h) as [[]|e1]; cbn [fst snd];
    [|left; rewrite drop_app_length; reflexivity].
  destruct (createClobClient W (h ++ [EConnectDB])) as [[]|e2]; cbn [fst snd];
    [|left; rewrite <- app_assoc, drop_app_length; reflexivity].
  assert (P : forall addresses h1,
             exists mid,
               fst (promise_all (settled_at W) (fetchPositions W)
                                addresses h1) = h1 ++ mid /\
               attempted mid = []).
  { intros addresses h1.
    exists (map (fun address =>
                   EFetchData
                     (DATA_API_BASE ++ "/positions?user=" ++ address)%string)
                addresses).
    split.
    - unfold promise_all. pose proof (start_all_sent W addresses h1) as Hs.
      destruct (start_all (fetchPositions W) addresses h1) as [h' rs].
      destruct (first_rejection _ 0 rs None) as [[j e]|]; exact Hs.
    - unfold attempted. induction addresses as [|a l IH]; simpl; auto. }
  destruct (P (USER_ADDRESSES W) ((h ++ [EConnectDB]) ++ [ECreateClobClient]))
    as (mid & Hm & Ha).
  destruct (promise_all (settled_at W) (fetchPositions W)
              (USER_ADDRESSES W)
              ((h ++ [EConnectDB]) ++ [ECreateClobClient]))
    as [h1 [responses|e3]];
    cbn [fst snd] in Hm; subst h1.
  - unfold fetchPositions, call.
    match goal with
    | |- context [fetchData W ?hh ?url] => destruct (fetchData W hh url) as [bots|e4]
    end.
    + match goal with
      | |- context [reconcile W responses bots ?h2] =>
          apply (R responses bots h h2)
      end.
      eexists. split; [rewrite <- !app_assoc; reflexivity|].
      unfold attempted in *. simpl. rewrite flat_map_app, Ha. reflexivity.
    + cbn [fst snd]. left.
      rewrite <- !app_assoc, drop_app_length.
      unfold attempted in *. simpl. rewrite flat_map_app, Ha. reflexivity.
  - cbn [fst snd]. left.
    rewrite <- !app_assoc, drop_app_length.
    unfold attempted in *. simpl. exact Ha.
Qed.

End ReconcileBalance.

(** ** Positions that share a key in the paired view ([frontend/app.js]) *)

Section SharedKeys.

Import Dashboard.

Lemma find_app_first {A} (f : A -> bool) (l1 l2 : list A) :
  find f (l1 ++ l2) =
  match find f l1 with Some x => Some x | None => find f l2 end.
Proof.
  induction l1 as [|a l1 IH]; simpl; [reflexivity|].
  destruct (f a); [reflexivity|exact IH].
Qed.

(** Assignment after assignment, the object holds under a key the last
    position assigned to it. *)
Lemma obj_get_fold_last (ps : list Position) (o : Obj) (k : string) :
  obj_get k (fold_left (fun o p => obj_set (getKey p) p o) ps o) =
  match last_with_key k ps with
  | Some p => Some p
  | None => obj_get k o
  end.
Proof.
  unfold last_with_key. revert o.
  induction ps as [|p ps IH]; intros o; simpl; [reflexivity|].
  rewrite IH, find_app_first.
  destruct (find _ (rev ps)); [reflexivity|].
  simpl. rewrite obj_get_set, (String.eqb_sym k).
  destruct (String.eqb (getKey p) k); reflexivity.
Qed.

Lemma obj_keys_set_In (k x : string) (v : Position) (o : Obj) :
  In x (obj_keys (obj_set k v o)) -> x = k \/ In x (obj_keys o).
Proof.
  unfold obj_keys. induction o as [|[k0 v0] o IH]; simpl.
  - intros [<-|[]]. auto.
  - destruct (String.eqb_spec k k0) as [->|Hne]; simpl.
    + intros [<-|H]; auto.
    + intros [<-|H]; [auto|]. destruct (IH H); auto.
Qed.

Lemma obj_keys_set_NoDup (k : string) (v : Position) (o : Obj) :
  NoDup (obj_keys o) -> NoDup (obj_keys (obj_set k v o)).
Proof.
  unfold obj_keys. induction o as [|[k0 v0] o IH]; simpl; intros H.
  - apply NoDup_singleton.
  - apply NoDup_cons in H. destruct H as [Hk0 Ho].
    destruct (String.eqb_spec k k0) as [->|Hne]; simpl.
    + apply NoDup_cons. split; assumption.
    + apply NoDup_cons. split; [|exact (IH Ho)].
      rewrite list_elem_of_In. intros Hin.
      destruct (obj_keys_set_In _ _ _ _ Hin) as [E|Hin'];
        [congruence|].
      apply Hk0. rewrite list_elem_of_In. exact Hin'.
Qed.

Lemma length_obj_set (k : string) (v : Position) (o : Obj) :
  (length (obj_set k v o) <= S (length o))%nat.
Proof.
  induction o as [|[k0 v0] o IH]; simpl; [lia|].
  destruct (String.eqb k k0); simpl; lia.
Qed.

Lemma byKey_keys (ps : list Position) :
  NoDup (obj_keys (byKey ps)) /\
  (length (obj_keys (byKey ps)) <= length ps)%nat.
Proof.
  unfold byKey.
  assert (G : forall o,
             NoDup (obj_keys o) ->
             NoDup (obj_keys
                      (fold_left (fun o p => obj_set (getKey p) p o) ps o)) /\
             (length (fold_left (fun o p => obj_set (getKey p) p o) ps o)
              <= length ps + length o)%nat).
  { induction ps as [|p ps IH]; intros o Ho; simpl; [split; [exact Ho|lia]|].
    destruct (IH _ (obj_keys_set_NoDup (getKey p) p o Ho)) as [N L].
    split; [exact N|]. pose proof (length_obj_set (getKey p) p o). lia. }
  destruct (G [] (NoDup_nil_2)) as [N L].
  split; [exact N|]. unfold obj_keys. rewrite length_map. simpl in L. lia.
Qed.

Lemma pairs_of_key_keys (traderByKey botByKey : Obj) (ks : list string)
      (x : string) :
  In x (map key (flat_map (pairs_of_key traderByKey botByKey) ks)) -> In x ks.
Proof.
  rewrite in_map_iff. intros (pair & <- & Hin).
  apply in_flat_map in Hin. destruct Hin as (k & Hk & Hin).
  unfold pairs_of_key in Hin.
  destruct (obj_get k botByKey); [|destruct Hin].
  destruct (obj_get k traderByKey); [|destruct Hin].
  destruct Hin as [<-|[]]. exact Hk.
Qed.

Lemma pairs_of_key_NoDup (traderByKey botByKey : Obj) (ks : list string) :
  NoDup ks ->
  NoDup (map key (flat_map (pairs_of_key traderByKey botByKey) ks)).
Proof.
  induction ks as [|k ks IH]; simpl; intros H; [constructor|].
  apply NoDup_cons in H. destruct H as [Hk Hks].
  rewrite map_app. unfold pairs_of_key at 1.
  destruct (obj_get k botByKey); [|exact (IH Hks)].
  destruct (obj_get k traderByKey); [|exact (IH Hks)].
  simpl. apply NoDup_cons. split; [|exact (IH Hks)].
  rewrite list_elem_of_In. intros Hin. apply Hk. rewrite list_elem_of_In.
  exact (pairs_of_key_keys _ _ _ _ Hin).
Qed.

Lemma pairs_of_key_at_most_one (traderByKey botByKey : Obj) (k : string) :
  (length (pairs_of_key traderByKey botByKey k) <= 1)%nat.
Proof.
  unfold pairs_of_key.
  destruct (obj_get k botByKey); [|simpl; lia].
  destruct (obj_get k traderByKey); simpl; lia.
Qed.

(** Positions that share a key.  The paired view has at most one pair
    for a key, and so no more pairs than there are open trader
    positions; when several open positions of a side have the key of a
    pair, the pair shows the last of them. *)
Theorem paired_view_keeps_last_position_of_a_key
        (state_traderPositions state_botPositions : list Position) :
  let r := renderPairedPositions state_traderPositions state_botPositions in
  NoDup (map key (matchedPairs r)) /\
  (length (matchedPairs r)
   <= length (List.filter isOpen state_traderPositions))%nat /\
  forall pair, In pair (matchedPairs r) ->
    last_with_key (key pair) (List.filter isOpen state_traderPositions)
    = Some (trader pair) /\
    last_with_key (key pair) (List.filter isOpen state_botPositions)
    = Some (bot pair).
Proof.
  cbv zeta. unfold renderPairedPositions. cbn [matchedPairs].
  set (traders := List.filter isOpen state_traderPositions).
  set (bots := List.filter isOpen state_botPositions).
  destruct (byKey_keys traders) as [N L].
  split; [|split].
  - exact (pairs_of_key_NoDup _ _ _ N).
  - unfold matchedPairs_of.
    pose proof (length_flat_map_le (pairs_of_key (byKey traders) (byKey bots))
                  (obj_keys (byKey traders))
                  (pairs_of_key_at_most_one _ _)).
    lia.
  - intros pair Hin. apply matchedPairs_lookup in Hin.
    destruct Hin as [Ht Hb]. unfold byKey in Ht, Hb.
    rewrite obj_get_fold_last in Ht, Hb. simpl in Ht, Hb.
    destruct (last_with_key (key pair) traders); [|discriminate].
    destruct (last_with_key (key pair) bots); [|discriminate].
    split; assumption.
Qed.

End SharedKeys.

(** ** What the stale list depends on ([src/scripts/reconcilePositions.ts]) *)

Section StaleList.

Import Reconcile.

Lemma filter_sublist {A} (f : A -> bool) (l : list A) :
  sublist (List.filter f l) l.
Proof.
  induction l as [|a l IH]; simpl; [constructor|].
  destruct (f a); [apply sublist_skip|apply sublist_cons]; exact IH.
Qed.

Lemma filter_filter_sublist {A} (f g : A -> bool) (l : list A) :
  (forall a, f a = true -> g a = true) ->
  sublist (List.filter f l) (List.filter g l).
Proof.
  intros Hfg. induction l as [|a l IH]; simpl; [constructor|].
  destruct (f a) eqn:F.
  - rewrite (Hfg a F). apply sublist_skip. exact IH.
  - destruct (g a); [apply sublist_cons|]; exact IH.
Qed.

(** The stale list keeps the bot's positions in the order of the bot's
    response, and one more tracked trader can only shorten it: no
    position becomes stale because a trader was added. *)
Theorem stale_list_shrinks_with_traders (positions : list Position)
        (responses : list (list Position)) (botPositions : list Position) :
  sublist (botOnly_of (positions :: responses) botPositions)
          (botOnly_of responses botPositions) /\
  sublist (botOnly_of responses botPositions) botPositions.
Proof.
  split.
  - unfold botOnly_of. apply filter_filter_sublist. intros p.
    unfold has. rewrite !negb_true_iff, !bool_decide_eq_false,
      !elem_of_openConditions.
    intros Hn (r & q & Hr & Hq). apply Hn. exists r, q.
    split; [right; exact Hr|exact Hq].
  - unfold botOnly_of.
    etransitivity; [apply filter_sublist|apply filter_sublist].
Qed.

(** The stale list depends on the trader responses only through the
    positions they hold between them: the order of the tracked
    addresses, and which trader holds which position, make no
    difference. *)
Theorem stale_list_ignores_who_holds_what
        (responses responses' : list (list Position))
        (botPositions : list Position) :
  (forall q, In q (concat responses) <-> In q (concat responses')) ->
  botOnly_of responses botPositions = botOnly_of responses' botPositions.
Proof.
  intros H. unfold botOnly_of.
  assert (E : openConditions responses = openConditions responses').
  { apply set_eq. intros c. rewrite !elem_of_openConditions.
    split; intros (r & q & Hr & Hq & Ho).
    - assert (Hc : In q (concat responses'))
        by (apply H, in_concat; eauto).
      apply in_concat in Hc. destruct Hc as (r' & Hr' & Hq'). eauto.
    - assert (Hc : In q (concat responses))
        by (apply H, in_concat; eauto).
      apply in_concat in Hc. destruct Hc as (r' & Hr' & Hq'). eauto. }
  rewrite E. reflexivity.
Qed.

End StaleList.

Lemma stale_list_witness :
  (forall q, In q (concat [[stale_position]; []])
             <-> In q (concat [[]; [stale_position]])) /\
  Reconcile.botOnly_of [[stale_position]; []] [stale_in "other"] =
  Reconcile.botOnly_of [[]; [stale_position]] [stale_in "other"].
Proof.
  assert (H : forall q, In q (concat [[stale_position]; []])
                        <-> In q (concat [[]; [stale_position]]))
    by (intros q; simpl; tauto).
  split; [exact H|].
  exact (stale_list_ignores_who_holds_what _ _ _ H).
Defined.
